(** * Butterfly curve: the geometry generator and the update contract

    A shallow embedding of [src/script.tsx]: the sampling loop of
    [createButterflyGeometry], the three.js objects it allocates
    (typed arrays, buffer attributes, buffer geometries) and the
    [updateButterfly] handler that swaps the geometries of the two wings.

    JavaScript numbers are kept abstract behind the interfaces [JSArith]
    (arithmetic) and [JSNumber] (the [Math] functions and the conversion to
    single precision); the statements about buffers, indices, sharing and
    disposal hold for any implementation of them, IEEE 754 doubles
    included.  The statements about magnitudes (hue range, lightness ramp)
    are proved on the instance given by the real numbers, and the colour
    arguments are also evaluated in binary64 arithmetic at the default
    settings.  The first vertex is settled in binary64, whatever [Math]
    functions the engine supplies: there the sign of a zero tells the two
    wings apart.  The other handlers of the page (resize, key presses,
    position and Rotate controls) are modelled over the same state. *)

From Stdlib Require Import ZArith QArith Reals Qreals Lra Lia.
From Stdlib Require PrimFloat FloatOps SpecFloat Uint63 FloatAxioms.
From stdpp Require Import gmap strings list fin_maps.
From Equations Require Import Equations.

Set Default Proof Using "Type".

(** ** JavaScript numbers *)

(** The arithmetic of the source on values of type [number].  [of_Z] reads an
    integer literal or an integer-valued counter, [of_Q] a decimal literal;
    [js_rem] is the remainder operator [%]. *)
Class JSArith (num : Type) := {
  of_Z : Z -> num;
  of_Q : Q -> num;
  js_add : num -> num -> num;
  js_sub : num -> num -> num;
  js_mul : num -> num -> num;
  js_div : num -> num -> num;
  js_rem : num -> num -> num;
  js_neg : num -> num
}.

(** The [Math] functions the source calls, which an engine is free to
    approximate as it sees fit, and [fround], the conversion applied to every
    element stored in a [Float32Array].  The two laws hold of IEEE 754
    arithmetic as well as of the reals. *)
Class JSNumber (num : Type) := {
  js_arith :: JSArith num;
  Math_PI : num;
  Math_sin : num -> num;
  Math_cos : num -> num;
  Math_exp : num -> num;
  Math_pow : num -> num -> num;
  fround : num -> num;
  js_mul_comm : forall x y, js_mul x y = js_mul y x;
  fround_neg : forall x, fround (js_neg x) = js_neg (fround x)
}.

Declare Scope js_scope.
Delimit Scope js_scope with js.
Infix "+" := js_add : js_scope.
Infix "-" := js_sub : js_scope.
Infix "*" := js_mul : js_scope.
Infix "/" := js_div : js_scope.
Infix "rem" := js_rem (at level 40, no associativity) : js_scope.
Notation "- x" := (js_neg x) : js_scope.

(** The [{h, s, l}] object passed to [createButterflyGeometry]. *)
Record HSL (num : Type) := { hsl_h : num; hsl_s : num; hsl_l : num }.
Arguments hsl_h {num} _.
Arguments hsl_s {num} _.
Arguments hsl_l {num} _.

(** A [THREE.Color] after [setHSL]: its fields [r], [g], [b]. *)
Record Color (num : Type) := { color_r : num; color_g : num; color_b : num }.
Arguments color_r {num} _.
Arguments color_g {num} _.
Arguments color_b {num} _.

(** The three local arrays filled by the loop. *)
Record Arrays (num : Type) := {
  pointsLeft : list num;
  pointsRight : list num;
  colors : list num
}.
Arguments pointsLeft {num} _.
Arguments pointsRight {num} _.
Arguments colors {num} _.

Section ColorArguments.
Context {num : Type} `{JSArith num}.

Local Open Scope js_scope.

(** [const pct = i / steps]. *)
Definition pct (steps i : Z) : num := of_Z i / of_Z steps.

(** First argument of [color.setHSL]: [(h - 0.3 * pct + 1) % 1]. *)
Definition hue (h p : num) : num := (h - of_Q 0.3 * p + of_Z 1) rem of_Z 1.

(** Third argument of [color.setHSL]: [l * pct]. *)
Definition lightness (l p : num) : num := l * p.

End ColorArguments.

Section Loop.
Context {num : Type} `{JSNumber num}.

(** [THREE.Color.prototype.setHSL] belongs to three.js, not to this
    repository: it is a parameter of the development. *)
Variable setHSL : num -> num -> num -> Color num.

Local Open Scope js_scope.

(** One iteration of the [for] loop, lines 26 to 46. *)
Definition body (steps : Z) (hsl : HSL num) (i : Z) (a : Arrays num)
  : Arrays num :=
  let h := hsl_h hsl in
  let s := hsl_s hsl in
  let l := hsl_l hsl in
  let t := (of_Z i / of_Z steps) * of_Z 24 * Math_PI in
  let r := Math_exp (Math_sin t) - of_Z 2 * Math_cos (of_Z 4 * t)
           + Math_pow (Math_sin ((of_Z 2 * t - Math_PI) / of_Z 24)) (of_Z 5) in
  let x := r * Math_sin t in
  let y := r * Math_cos t in
  let z := Math_sin (of_Z 2 * t) * of_Q 0.5 in
  let pointsLeft' := pointsLeft a ++ [x; y; z] in
  let pointsRight' := pointsRight a ++ [- x; y; z] in
  let p := pct steps i in
  let color := setHSL (hue h p) s (lightness l p) in
  let colors' := colors a ++ [color_r color; color_g color; color_b color] in
  {| pointsLeft := pointsLeft'; pointsRight := pointsRight';
     colors := colors' |}.

(** [for (let i = 0; i < steps; i++) { ... }], entered at counter [i]. *)
Equations? for_loop (steps : Z) (hsl : HSL num) (i : Z) (a : Arrays num)
  : Arrays num by wf (Z.to_nat (steps - i)) lt :=
  for_loop steps hsl i a with Z_lt_dec i steps := {
    | left _ => for_loop steps hsl (i + 1)%Z (body steps hsl i a)
    | right _ => a }.
Proof. lia. Qed.

(** The arrays before the first iteration. *)
Definition no_arrays : Arrays num :=
  {| pointsLeft := []; pointsRight := []; colors := [] |}.

(** [n] consecutive iterations starting at counter [i]. *)
Fixpoint iterations (steps : Z) (hsl : HSL num) (n : nat) (i : Z)
  (a : Arrays num) : Arrays num :=
  match n with
  | O => a
  | S n' => iterations steps hsl n' (i + 1)%Z (body steps hsl i a)
  end.

(** What one iteration appends to each array. *)
Definition item (steps : Z) (hsl : HSL num) (i : Z) : Arrays num :=
  body steps hsl i no_arrays.

End Loop.

(** ** three.js objects and the program state *)

(** Objects live in a heap and are named by their address, so that two
    references to one object are told apart from two equal objects. *)
Definition loc := nat.

(** [THREE.BufferAttribute]: the typed array and the item size. *)
Record BufferAttribute (num : Type) := {
  array : list num;
  itemSize : nat
}.
Arguments array {num} _.
Arguments itemSize {num} _.

(** [attribute.count], set by the constructor to [array.length / itemSize]. *)
Definition count {num} (a : BufferAttribute num) : nat :=
  length (array a) / itemSize a.

(** [attribute.getX(i)], [getY(i)], [getZ(i)]: the [i]-th item. *)
Definition getXYZ {num} (a : BufferAttribute num) (i : nat)
  : option (num * num * num) :=
  x ← array a !! (i * itemSize a);
  y ← array a !! (i * itemSize a + 1);
  z ← array a !! (i * itemSize a + 2);
  Some (x, y, z).

Inductive Wing := WingLeft | WingRight.

(** What the renderer observes of a geometry's life cycle. *)
Inductive Event :=
| Dispose (g : loc)
| SetGeometry (w : Wing) (g : loc).

(** [butterflySettings]. *)
Record Settings (num : Type) := {
  rotate : bool;
  steps : Z;
  hsl : HSL num
}.
Arguments rotate {num} _.
Arguments steps {num} _.
Arguments hsl {num} _.

(** The module-level state the handlers act on.  A [THREE.BufferGeometry] is
    its [attributes] object: attribute name to attribute address. *)
Record World (num : Type) := {
  attribute_heap : list (BufferAttribute num);
  geometry_heap : list (gmap string loc);
  wingLeft_geometry : loc;
  wingRight_geometry : loc;
  butterflySettings : Settings num;
  events : list Event
}.
Arguments attribute_heap {num} _.
Arguments geometry_heap {num} _.
Arguments wingLeft_geometry {num} _.
Arguments wingRight_geometry {num} _.
Arguments butterflySettings {num} _.
Arguments events {num} _.

(** Geometries disposed so far, and geometries created and not disposed. *)
Definition disposed (tr : list Event) : list loc :=
  omap (fun e => match e with Dispose g => Some g | SetGeometry _ _ => None end) tr.

Definition live {num} (w : World num) : gset loc :=
  set_seq 0 (length (geometry_heap w)) ∖ list_to_set (disposed (events w)).

(** The geometry attached to a wing, and the attribute a geometry holds
    under a name, read through the heap. *)
Definition geometry_of {num} (w : World num) (k : Wing) : loc :=
  match k with
  | WingLeft => wingLeft_geometry w
  | WingRight => wingRight_geometry w
  end.

Definition attribute_loc {num} (w : World num) (g : loc) (name : string)
  : option loc :=
  m ← geometry_heap w !! g; m !! name.

Definition getAttribute {num} (w : World num) (g : loc) (name : string)
  : option (BufferAttribute num) :=
  a ← attribute_loc w g name; attribute_heap w !! a.

(** State passing over [World]. *)
Definition M (num A : Type) : Type := World num -> A * World num.

#[global] Instance M_ret {num} : MRet (M num) := fun A x w => (x, w).
#[global] Instance M_bind {num} : MBind (M num) :=
  fun A B f m w => let '(x, w') := m w in f x w'.

Section Objects.
Context {num : Type}.

(** [new THREE.BufferAttribute(arr, size)]. *)
Definition new_BufferAttribute (arr : list num) (size : nat) : M num loc :=
  fun w =>
    (length (attribute_heap w),
     {| attribute_heap :=
          attribute_heap w ++ [{| array := arr; itemSize := size |}];
        geometry_heap := geometry_heap w;
        wingLeft_geometry := wingLeft_geometry w;
        wingRight_geometry := wingRight_geometry w;
        butterflySettings := butterflySettings w;
        events := events w |}).

(** [new THREE.BufferGeometry()]. *)
Definition new_BufferGeometry : M num loc :=
  fun w =>
    (length (geometry_heap w),
     {| attribute_heap := attribute_heap w;
        geometry_heap := geometry_heap w ++ [∅];
        wingLeft_geometry := wingLeft_geometry w;
        wingRight_geometry := wingRight_geometry w;
        butterflySettings := butterflySettings w;
        events := events w |}).

(** [g.setAttribute(name, a)]. *)
Definition setAttribute (g : loc) (name : string) (a : loc) : M num unit :=
  fun w =>
    (tt,
     {| attribute_heap := attribute_heap w;
        geometry_heap := alter (insert name a) g (geometry_heap w);
        wingLeft_geometry := wingLeft_geometry w;
        wingRight_geometry := wingRight_geometry w;
        butterflySettings := butterflySettings w;
        events := events w |}).

(** [g.dispose()]. *)
Definition dispose (g : loc) : M num unit :=
  fun w =>
    (tt,
     {| attribute_heap := attribute_heap w;
        geometry_heap := geometry_heap w;
        wingLeft_geometry := wingLeft_geometry w;
        wingRight_geometry := wingRight_geometry w;
        butterflySettings := butterflySettings w;
        events := events w ++ [Dispose g] |}).

(** [wing.geometry] read and [wing.geometry = g]. *)
Definition get_geometry (k : Wing) : M num loc := fun w => (geometry_of w k, w).

Definition set_geometry (k : Wing) (g : loc) : M num unit :=
  fun w =>
    (tt,
     {| attribute_heap := attribute_heap w;
        geometry_heap := geometry_heap w;
        wingLeft_geometry :=
          match k with WingLeft => g | WingRight => wingLeft_geometry w end;
        wingRight_geometry :=
          match k with WingLeft => wingRight_geometry w | WingRight => g end;
        butterflySettings := butterflySettings w;
        events := events w ++ [SetGeometry k g] |}).

Definition get_settings : M num (Settings num) :=
  fun w => (butterflySettings w, w).

Definition set_settings (st : Settings num) : M num unit :=
  fun w =>
    (tt,
     {| attribute_heap := attribute_heap w;
        geometry_heap := geometry_heap w;
        wingLeft_geometry := wingLeft_geometry w;
        wingRight_geometry := wingRight_geometry w;
        butterflySettings := st;
        events := events w |}).

End Objects.

Section Program.
Context {num : Type} `{JSNumber num}.
Variable setHSL : num -> num -> num -> Color num.

(** [new Float32Array(xs)]: every element is converted to single
    precision. *)
Definition Float32Array (xs : list num) : list num := fround <$> xs.

(** The loop of [createButterflyGeometry] run from [i = 0] on empty arrays. *)
Definition sample (steps : Z) (hsl : HSL num) : Arrays num :=
  for_loop setHSL steps hsl 0 no_arrays.

(** [createButterflyGeometry(steps, hsl)], lines 19 to 66. *)
Definition createButterflyGeometry (steps : Z) (hsl : HSL num)
  : M num (loc * loc) :=
  let a := sample steps hsl in
  let verticesLeft := Float32Array (pointsLeft a) in
  let verticesRight := Float32Array (pointsRight a) in
  let colorAttr := Float32Array (colors a) in
  attributeLeft ← new_BufferAttribute verticesLeft 3;
  attributeRight ← new_BufferAttribute verticesRight 3;
  colorAttribute ← new_BufferAttribute colorAttr 3;
  geometryLeft ← new_BufferGeometry;
  geometryRight ← new_BufferGeometry;
  setAttribute geometryLeft "position" attributeLeft;;
  setAttribute geometryRight "position" attributeRight;;
  setAttribute geometryLeft "color" colorAttribute;;
  setAttribute geometryRight "color" colorAttribute;;
  mret (geometryLeft, geometryRight).

(** [updateButterfly()], lines 151 to 158. *)
Definition updateButterfly : M num unit :=
  st ← get_settings;
  '(geometryLeft, geometryRight) ← createButterflyGeometry (steps st) (hsl st);
  oldLeft ← get_geometry WingLeft;
  dispose oldLeft;;
  oldRight ← get_geometry WingRight;
  dispose oldRight;;
  set_geometry WingLeft geometryLeft;;
  set_geometry WingRight geometryRight.

End Program.

(** ** Start-up and the debug panel *)

#[global] Instance Wing_eq_dec : EqDecision Wing.
Proof. solve_decision. Defined.

(** A change made through one of the controls that trigger
    [updateButterfly]: Steps, Hue, Saturation, Lightness. *)
Inductive Change (num : Type) :=
| ChangeSteps (v : Z)
| ChangeHue (v : num)
| ChangeSaturation (v : num)
| ChangeLightness (v : num).
Arguments ChangeSteps {num} _.
Arguments ChangeHue {num} _.
Arguments ChangeSaturation {num} _.
Arguments ChangeLightness {num} _.

Section Panel.
Context {num : Type} `{JSNumber num}.
Variable setHSL : num -> num -> num -> Color num.

(** The literal [{h: 0.85, s: 0.8, l: 0.5}] of lines 68 and 144. *)
Definition default_hsl : HSL num :=
  {| hsl_h := of_Q 0.85; hsl_s := of_Q 0.8; hsl_l := of_Q 0.5 |}.

(** [butterflySettings] as declared at line 141. *)
Definition default_settings : Settings num :=
  {| rotate := false; steps := 2000; hsl := default_hsl |}.

(** The state once the module body has run: the first pair of geometries
    (line 68) attached to the two wings (lines 72 and 73). *)
Definition initial_world : World num :=
  let w0 := {| attribute_heap := []; geometry_heap := [];
               wingLeft_geometry := 0; wingRight_geometry := 0;
               butterflySettings := default_settings; events := [] |} in
  let '((geometryLeft, geometryRight), w1) :=
    createButterflyGeometry setHSL 2000 default_hsl w0 in
  {| attribute_heap := attribute_heap w1;
     geometry_heap := geometry_heap w1;
     wingLeft_geometry := geometryLeft;
     wingRight_geometry := geometryRight;
     butterflySettings := butterflySettings w1;
     events := events w1 |}.

(** The control writes the new value into [butterflySettings]. *)
Definition apply_change (c : Change num) (st : Settings num) : Settings num :=
  match c with
  | ChangeSteps v =>
      {| rotate := rotate st; steps := v; hsl := hsl st |}
  | ChangeHue v =>
      {| rotate := rotate st; steps := steps st;
         hsl := {| hsl_h := v; hsl_s := hsl_s (hsl st); hsl_l := hsl_l (hsl st) |} |}
  | ChangeSaturation v =>
      {| rotate := rotate st; steps := steps st;
         hsl := {| hsl_h := hsl_h (hsl st); hsl_s := v; hsl_l := hsl_l (hsl st) |} |}
  | ChangeLightness v =>
      {| rotate := rotate st; steps := steps st;
         hsl := {| hsl_h := hsl_h (hsl st); hsl_s := hsl_s (hsl st); hsl_l := v |} |}
  end.

(** [.onChange(() => updateButterfly())], lines 173 and 178 to 180. *)
Definition onChange (c : Change num) : M num unit :=
  st ← get_settings;
  set_settings (apply_change c st);;
  updateButterfly setHSL.

(** The Rotate control writes [butterflySettings.rotate]; its callback,
    lines 186 to 192, then plays or pauses the tween, which is no part of
    this state. *)
Definition write_rotate (v : bool) : M num unit :=
  st ← get_settings;
  set_settings {| rotate := v; steps := steps st; hsl := hsl st |}.

(** The states of the wings, heap, settings and trace the page can be in:
    start-up followed by regenerating changes and writes of the Rotate
    control.  The other inputs (resize, key presses, position controls)
    leave this state as it is. *)
Inductive reachable : World num -> Prop :=
| reachable_initial : reachable initial_world
| reachable_change c w : reachable w -> reachable (onChange c w).2
| reachable_rotate v w : reachable w -> reachable (write_rotate v w).2.

End Panel.

(** ** Observations used in the statements *)

(** The [i]-th item of the attribute a geometry holds under [name]. *)
Definition item_of {num} (w : World num) (g : loc) (name : string) (i : nat)
  : option (num * num * num) :=
  a ← getAttribute w g name; getXYZ a i.

(** The [i]-th triple of a flat array of 3-vectors. *)
Definition triple_at {num} (xs : list num) (i : nat) : option (num * num * num) :=
  getXYZ {| array := xs; itemSize := 3 |} i.

(** An attribute of [n] items of size 3. *)
Definition has_entries {num} (o : option (BufferAttribute num)) (n : nat) : Prop :=
  exists a, o = Some a /\ itemSize a = 3 /\ length (array a) = 3 * n /\ count a = n.

Section Observations.
Context {num : Type} `{JSNumber num}.

(** A triple as read back from a [Float32Array]. *)
Definition fround3 (p : num * num * num) : num * num * num :=
  let '(x, y, z) := p in (fround x, fround y, fround z).

(** The attribute a freshly built geometry of wing [k] holds under
    [name], as a function of the sampled arrays alone. *)
Definition built_attribute (a : Arrays num) (k : Wing) (name : string)
  : option (BufferAttribute num) :=
  if decide (name = "color")
  then Some {| array := Float32Array (colors a); itemSize := 3 |}
  else if decide (name = "position")
  then Some {| array := Float32Array
                          match k with
                          | WingLeft => pointsLeft a
                          | WingRight => pointsRight a
                          end;
               itemSize := 3 |}
  else None.

(** After startup or a change, exactly the attached pair is live, the two
    wings hold different geometries, and only created geometries have
    been disposed. *)
Definition one_live_pair (w : World num) : Prop :=
  live w = {[ wingLeft_geometry w; wingRight_geometry w ]} /\
  wingLeft_geometry w <> wingRight_geometry w /\
  (forall g, g ∈ disposed (events w) -> g < length (geometry_heap w)).

End Observations.

(** The events appended to the trace between two states. *)
Definition events_since {num} (w w' : World num) : list Event :=
  drop (length (events w)) (events w').

(** Trace monitor: every [SetGeometry k _] finds the geometry then attached
    to wing [k] among those disposed earlier in the trace. *)
Fixpoint released_before_replaced (attached : Wing -> loc) (released : list loc)
  (tr : list Event) : Prop :=
  match tr with
  | [] => True
  | Dispose g :: tr' => released_before_replaced attached (g :: released) tr'
  | SetGeometry k g :: tr' =>
      attached k ∈ released /\
      released_before_replaced
        (fun k' => if decide (k' = k) then g else attached k') released tr'
  end.

(** ** The real numbers as an idealised [number] *)

(** Truncation toward zero, the rounding used by [%]. *)
Definition Rtrunc (x : R) : R :=
  if Rle_dec 0 x then IZR (Int_part x) else (- IZR (Int_part (- x)))%R.

(** [x % y]: the remainder takes the sign of the dividend. *)
Definition Rrem (x y : R) : R := (x - y * Rtrunc (x / y))%R.

(** [Math.pow(x, y)]: repeated multiplication for an integer exponent. *)
Definition Rpow (x y : R) : R :=
  if Req_dec_T y (IZR (Int_part y)) then powerRZ x (Int_part y)
  else Rpower x y.

#[global] Instance R_JSArith : JSArith R := {|
  of_Z := IZR;
  of_Q := Q2R;
  js_add := Rplus;
  js_sub := Rminus;
  js_mul := Rmult;
  js_div := Rdiv;
  js_rem := Rrem;
  js_neg := Ropp
|}.

#[global] Instance R_JSNumber : JSNumber R := {|
  js_arith := R_JSArith;
  Math_PI := PI;
  Math_sin := sin;
  Math_cos := cos;
  Math_exp := exp;
  Math_pow := Rpow;
  fround := fun x => x;
  js_mul_comm := Rmult_comm;
  fround_neg := fun x => eq_refl
|}.

(** The textbook conversion from HSL to RGB, one admissible [setHSL]. *)
Definition hue2rgb (p q t : R) : R :=
  let t := if Rlt_dec t 0 then (t + 1)%R
           else if Rlt_dec 1 t then (t - 1)%R else t in
  if Rlt_dec t (1 / 6) then (p + (q - p) * 6 * t)%R
  else if Rlt_dec t (1 / 2) then q
  else if Rlt_dec t (2 / 3) then (p + (q - p) * 6 * (2 / 3 - t))%R
  else p.

Definition hsl_to_rgb (h s l : R) : Color R :=
  if Req_dec_T s 0 then {| color_r := l; color_g := l; color_b := l |}
  else
    let q := if Rle_dec l (1 / 2) then (l * (1 + s))%R else (l + s - l * s)%R in
    let p := (2 * l - q)%R in
    {| color_r := hue2rgb p q (h + 1 / 3);
       color_g := hue2rgb p q h;
       color_b := hue2rgb p q (h - 1 / 3) |}.

(** ** Binary64 arithmetic, the [number] type of an actual engine

    Only the arithmetic: the [Math] functions have no standard bit-exact
    definition. *)

(** An integer literal or counter; exact below [2^53]. *)
Definition float_of_Z (z : Z) : PrimFloat.float :=
  match z with
  | Z0 => PrimFloat.zero
  | Zpos _ => PrimFloat.of_uint63 (Uint63.of_Z z)
  | Zneg p => PrimFloat.opp (PrimFloat.of_uint63 (Uint63.of_Z (Zpos p)))
  end.

(** A decimal literal [n / 10^k]: the correctly rounded quotient of two
    exactly represented integers is the double nearest to the literal. *)
Definition float_of_Q (q : Q) : PrimFloat.float :=
  PrimFloat.div (float_of_Z (Qnum q)) (float_of_Z (Zpos (Qden q))).

(** [x % y] on doubles (ECMAScript [Number::remainder]): exact, with the
    sign of the dividend. *)
Definition float_rem (x y : PrimFloat.float) : PrimFloat.float :=
  match FloatOps.Prim2SF x, FloatOps.Prim2SF y with
  | SpecFloat.S754_nan, _ | _, SpecFloat.S754_nan => PrimFloat.nan
  | SpecFloat.S754_infinity _, _ => PrimFloat.nan
  | _, SpecFloat.S754_zero _ => PrimFloat.nan
  | SpecFloat.S754_zero _, _ => x
  | _, SpecFloat.S754_infinity _ => x
  | SpecFloat.S754_finite sx mx ex, SpecFloat.S754_finite _ my ey =>
      let e := Z.min ex ey in
      let n := (Zpos mx * 2 ^ (ex - e))%Z in
      let d := (Zpos my * 2 ^ (ey - e))%Z in
      let r := (n mod d)%Z in
      if (r =? 0)%Z
      then (if sx then PrimFloat.neg_zero else PrimFloat.zero)
      else FloatOps.SF2Prim
             (SpecFloat.binary_normalize FloatOps.prec FloatOps.emax
                (if sx then (- r)%Z else r) e false)
  end.

#[global] Instance binary64_JSArith : JSArith PrimFloat.float := {|
  of_Z := float_of_Z;
  of_Q := float_of_Q;
  js_add := PrimFloat.add;
  js_sub := PrimFloat.sub;
  js_mul := PrimFloat.mul;
  js_div := PrimFloat.div;
  js_rem := float_rem;
  js_neg := PrimFloat.opp
|}.

(** [0 <= x && x < 1] on doubles. *)
Definition in_unit_interval (x : PrimFloat.float) : bool :=
  PrimFloat.leb PrimFloat.zero x && PrimFloat.ltb x PrimFloat.one.

(** *** A binary64 engine

    The arithmetic above, the double nearest to pi, the conversion of a
    [Float32Array] element (round to nearest even on 24 bits, exponents up
    to 128), and [Math] functions supplied by the engine. *)

Definition float_PI : PrimFloat.float :=
  FloatOps.SF2Prim (SpecFloat.S754_finite false 7074237752028440 (-51)).

(** Rounding of a double to single precision, on the specification side. *)
Definition SFround32 (sf : SpecFloat.spec_float) : SpecFloat.spec_float :=
  match sf with
  | SpecFloat.S754_finite s m e => SpecFloat.binary_round 24 128 s m e
  | _ => sf
  end.

(** [Math.fround], the conversion a [Float32Array] applies to what it
    stores. *)
Definition float_fround (x : PrimFloat.float) : PrimFloat.float :=
  FloatOps.SF2Prim (SFround32 (FloatOps.Prim2SF x)).

(** An engine is given by its [Math] functions; the two laws of [JSNumber]
    hold of binary64 whatever these are. *)
Definition binary64_JSNumber
  (fsin fcos fexp : PrimFloat.float -> PrimFloat.float)
  (fpow : PrimFloat.float -> PrimFloat.float -> PrimFloat.float)
  : JSNumber PrimFloat.float.
Proof.
  refine {| js_arith := binary64_JSArith;
            Math_PI := float_PI;
            Math_sin := fsin;
            Math_cos := fcos;
            Math_exp := fexp;
            Math_pow := fpow;
            fround := float_fround;
            js_mul_comm := _;
            fround_neg := _ |}.
  - intros x y. apply FloatAxioms.Prim2SF_inj.
    cbn [js_mul js_arith binary64_JSArith].
    rewrite !FloatAxioms.mul_spec. unfold FloatAxioms.SF64mul.
    destruct (FloatOps.Prim2SF x) as [sx | sx | | sx mx ex],
             (FloatOps.Prim2SF y) as [sy | sy | | sy my ey];
      unfold SpecFloat.SFmul; try rewrite (xorb_comm sx sy); try reflexivity.
    rewrite (Pos.mul_comm mx my), (Z.add_comm ex ey). reflexivity.
  - intros x. cbn [js_neg js_arith binary64_JSArith]. unfold float_fround.
    rewrite FloatAxioms.opp_spec.
    assert (Hopp : forall f, PrimFloat.opp (PrimFloat.opp f) = f).
    { intros f. apply FloatAxioms.Prim2SF_inj. rewrite !FloatAxioms.opp_spec.
      destruct (FloatOps.Prim2SF f); cbn [SpecFloat.SFopp];
        rewrite ?negb_involutive; reflexivity. }
    assert (Hround : forall sf,
               SFround32 (SpecFloat.SFopp sf) = SpecFloat.SFopp (SFround32 sf)).
    { intros [s | s | | s m e]; try reflexivity.
      cbn [SpecFloat.SFopp SFround32].
      unfold SpecFloat.binary_round, SpecFloat.binary_round_aux.
      destruct (SpecFloat.shl_align _ _ _) as [mz ez].
      destruct (SpecFloat.shr_fexp 24 128 (Zpos mz) ez SpecFloat.loc_Exact)
        as [mrs' e'].
      destruct (SpecFloat.shr_fexp 24 128 _ e' SpecFloat.loc_Exact)
        as [mrs'' e''].
      destruct (SpecFloat.shr_m mrs''); try reflexivity.
      destruct (Z.leb e'' (128 - 24)); reflexivity. }
    rewrite Hround.
    destruct (SFround32 (FloatOps.Prim2SF x)) as [[|] | [|] | | [|] m e];
      try reflexivity.
    cbn [SpecFloat.SFopp FloatOps.SF2Prim negb]. symmetry. apply Hopp.
Defined.

(** One admissible set of [Math] functions, by series and argument
    reduction; the values that ECMAScript fixes (at zeros, infinities and
    NaN) come out as required. *)
Fixpoint alternating_series (terms : nat) (k : Z) (x2 : PrimFloat.float)
  : PrimFloat.float :=
  match terms with
  | O => PrimFloat.one
  | S n =>
      PrimFloat.sub PrimFloat.one
        (PrimFloat.mul (PrimFloat.div x2 (float_of_Z (k * (k + 1))))
           (alternating_series n (k + 2) x2))
  end.

Definition reduce_angle (x : PrimFloat.float) : PrimFloat.float :=
  let two_pi := PrimFloat.mul PrimFloat.two float_PI in
  let r := float_rem x two_pi in
  if PrimFloat.ltb float_PI r then PrimFloat.sub r two_pi
  else if PrimFloat.ltb r (PrimFloat.opp float_PI) then PrimFloat.add r two_pi
  else r.

Definition series_sin (x : PrimFloat.float) : PrimFloat.float :=
  let r := reduce_angle x in
  PrimFloat.mul r (alternating_series 14 2 (PrimFloat.mul r r)).

Definition series_cos (x : PrimFloat.float) : PrimFloat.float :=
  let r := reduce_angle x in
  alternating_series 14 1 (PrimFloat.mul r r).

Fixpoint exp_series (terms : nat) (k : Z) (y : PrimFloat.float)
  : PrimFloat.float :=
  match terms with
  | O => PrimFloat.one
  | S n =>
      PrimFloat.add PrimFloat.one
        (PrimFloat.mul (PrimFloat.div y (float_of_Z k)) (exp_series n (k + 1) y))
  end.

Fixpoint square_times (n : nat) (x : PrimFloat.float) : PrimFloat.float :=
  match n with
  | O => x
  | S n' => square_times n' (PrimFloat.mul x x)
  end.

Definition series_exp (x : PrimFloat.float) : PrimFloat.float :=
  if PrimFloat.eqb x PrimFloat.neg_infinity then PrimFloat.zero
  else square_times 10 (exp_series 22 1 (PrimFloat.div x (float_of_Z 1024))).

Fixpoint atanh_series (terms : nat) (k : Z) (u2 : PrimFloat.float)
  : PrimFloat.float :=
  match terms with
  | O => PrimFloat.zero
  | S n =>
      PrimFloat.add (PrimFloat.div PrimFloat.one (float_of_Z k))
        (PrimFloat.mul u2 (atanh_series n (k + 2) u2))
  end.

Definition series_ln (x : PrimFloat.float) : PrimFloat.float :=
  if PrimFloat.is_nan x || PrimFloat.ltb x PrimFloat.zero then PrimFloat.nan
  else if PrimFloat.eqb x PrimFloat.zero then PrimFloat.neg_infinity
  else if PrimFloat.eqb x PrimFloat.infinity then PrimFloat.infinity
  else
    let '(m0, e0) := FloatOps.Z.frexp x in
    let low := PrimFloat.ltb m0 (float_of_Q 0.75) in
    let m := if low then PrimFloat.mul PrimFloat.two m0 else m0 in
    let e := if low then (e0 - 1)%Z else e0 in
    let u := PrimFloat.div (PrimFloat.sub m PrimFloat.one)
                           (PrimFloat.add m PrimFloat.one) in
    PrimFloat.add
      (PrimFloat.mul (float_of_Z e) (float_of_Q 0.6931471805599453))
      (PrimFloat.mul (PrimFloat.mul PrimFloat.two u)
         (atanh_series 30 1 (PrimFloat.mul u u))).

(** The integer a double denotes, if it denotes one. *)
Definition integer_of (y : PrimFloat.float) : option Z :=
  match FloatOps.Prim2SF y with
  | SpecFloat.S754_zero _ => Some 0%Z
  | SpecFloat.S754_finite s m e =>
      let sign (n : Z) := if s then (- n)%Z else n in
      if (0 <=? e)%Z then Some (sign (Zpos m * 2 ^ e)%Z)
      else if (Zpos m mod 2 ^ (- e) =? 0)%Z
           then Some (sign (Zpos m / 2 ^ (- e))%Z)
           else None
  | _ => None
  end.

Fixpoint pow_pos (x : PrimFloat.float) (p : positive) : PrimFloat.float :=
  match p with
  | xH => x
  | xO q => let h := pow_pos x q in PrimFloat.mul h h
  | xI q => let h := pow_pos x q in PrimFloat.mul x (PrimFloat.mul h h)
  end.

Definition series_pow (x y : PrimFloat.float) : PrimFloat.float :=
  match integer_of y with
  | Some Z0 => PrimFloat.one
  | Some (Zpos p) => pow_pos x p
  | Some (Zneg p) => PrimFloat.div PrimFloat.one (pow_pos x p)
  | None =>
      if PrimFloat.ltb x PrimFloat.zero && PrimFloat.is_finite x
         && PrimFloat.is_finite y
      then PrimFloat.nan
      else series_exp (PrimFloat.mul y (series_ln (PrimFloat.abs x)))
  end.

Definition binary64_series : JSNumber PrimFloat.float :=
  binary64_JSNumber series_sin series_cos series_exp series_pow.

(** A colour conversion on doubles for the runs in binary64: the grey of
    the given lightness.  The vertex positions do not depend on it. *)
Definition float_grey (h s l : PrimFloat.float) : Color PrimFloat.float :=
  {| color_r := l; color_g := l; color_b := l |}.

(** The input of the worked scenario: four samples, [{h: 0, s: 1, l: 1}]. *)
Definition scenario_hsl : HSL R :=
  {| hsl_h := 0%R; hsl_s := 1%R; hsl_l := 1%R |}.

(** ** Whole runs of the panel *)

Section Runs.
Context {num : Type} `{JSNumber num}.
Variable setHSL : num -> num -> num -> Color num.

(** The state after start-up followed by the changes [cs], oldest first. *)
Definition run_changes (cs : list (Change num)) : World num :=
  fold_left (fun w c => (onChange setHSL c w).2) cs (initial_world setHSL).

(** Each wing shows what [createButterflyGeometry] builds from the current
    [butterflySettings]. *)
Definition in_sync (w : World num) : Prop :=
  forall k name,
    getAttribute w (geometry_of w k) name
      = built_attribute
          (sample setHSL (steps (butterflySettings w)) (hsl (butterflySettings w)))
          k name.

End Runs.

(** The state of the trace monitor after a trace: which geometry each wing
    holds, and which geometries have been disposed. *)
Fixpoint attached_after (attached : Wing -> loc) (tr : list Event)
  : Wing -> loc :=
  match tr with
  | [] => attached
  | Dispose _ :: tr' => attached_after attached tr'
  | SetGeometry k g :: tr' =>
      attached_after (fun k' => if decide (k' = k) then g else attached k') tr'
  end.

Fixpoint released_after (released : list loc) (tr : list Event) : list loc :=
  match tr with
  | [] => released
  | Dispose g :: tr' => released_after (g :: released) tr'
  | SetGeometry _ _ :: tr' => released_after released tr'
  end.

(** ** The rest of the page: camera, renderer, tween, panel visibility *)

Inductive Axis := AxisX | AxisY | AxisZ.

(** The module-level objects the other handlers act on, beside the [World]
    of the two wings: [camera.aspect], the size last given to
    [renderer.setSize], whether the tween [rotateButterfly] is paused,
    [gui._hidden], and [butterfly.position]. *)
Record Page (num : Type) := {
  world : World num;
  camera_aspect : num;
  renderer_size : num * num;
  tween_paused : bool;
  gui_hidden : bool;
  butterfly_position : num * num * num
}.
Arguments world {num} _.
Arguments camera_aspect {num} _.
Arguments renderer_size {num} _.
Arguments tween_paused {num} _.
Arguments gui_hidden {num} _.
Arguments butterfly_position {num} _.

(** What the browser and the panel can deliver to the page. *)
Inductive Input (num : Type) :=
| Resize (innerWidth innerHeight : num)
| KeyDown (key : string)
| PositionChanged (axis : Axis) (v : num)
| RotateChanged (v : bool)
| Changed (c : Change num).
Arguments Resize {num} _ _.
Arguments KeyDown {num} _.
Arguments PositionChanged {num} _ _.
Arguments RotateChanged {num} _.
Arguments Changed {num} _.

Section PageHandlers.
Context {num : Type} `{JSNumber num}.
Variable setHSL : num -> num -> num -> Color num.

Local Open Scope js_scope.

(** The page once the module body has run in a window of the given inner
    size: camera of line 80, renderer of lines 100 and 101, tween created
    paused (line 110), panel hidden (line 130), group at the origin. *)
Definition initial_page (innerWidth innerHeight : num) : Page num :=
  {| world := initial_world setHSL;
     camera_aspect := innerWidth / innerHeight;
     renderer_size := (innerWidth, innerHeight);
     tween_paused := true;
     gui_hidden := true;
     butterfly_position := (of_Z 0, of_Z 0, of_Z 0) |}.

(** The [resize] listener, lines 85 to 93. *)
Definition on_resize (innerWidth innerHeight : num) (p : Page num) : Page num :=
  {| world := world p;
     camera_aspect := innerWidth / innerHeight;
     renderer_size := (innerWidth, innerHeight);
     tween_paused := tween_paused p;
     gui_hidden := gui_hidden p;
     butterfly_position := butterfly_position p |}.

(** [gui.show(show)] of lil-gui: [this._hidden = !show]. *)
Definition gui_show (show : bool) (p : Page num) : Page num :=
  {| world := world p;
     camera_aspect := camera_aspect p;
     renderer_size := renderer_size p;
     tween_paused := tween_paused p;
     gui_hidden := negb show;
     butterfly_position := butterfly_position p |}.

(** The [keydown] listener, lines 132 to 136. *)
Definition on_keydown (key : string) (p : Page num) : Page num :=
  if decide (key = "g") then gui_show (gui_hidden p) p else p.

(** A position control writes one coordinate of [butterfly.position],
    lines 161 to 163; no callback is attached. *)
Definition on_position (axis : Axis) (v : num) (p : Page num) : Page num :=
  {| world := world p;
     camera_aspect := camera_aspect p;
     renderer_size := renderer_size p;
     tween_paused := tween_paused p;
     gui_hidden := gui_hidden p;
     butterfly_position :=
       let '(x, y, z) := butterfly_position p in
       match axis with
       | AxisX => (v, y, z)
       | AxisY => (x, v, z)
       | AxisZ => (x, y, v)
       end |}.

(** [rotateButterfly.play()] and [rotateButterfly.pause()]. *)
Definition tween_set_paused (b : bool) (p : Page num) : Page num :=
  {| world := world p;
     camera_aspect := camera_aspect p;
     renderer_size := renderer_size p;
     tween_paused := b;
     gui_hidden := gui_hidden p;
     butterfly_position := butterfly_position p |}.

(** The Rotate control writes [butterflySettings.rotate]. *)
Definition set_rotate (v : bool) (p : Page num) : Page num :=
  let st := butterflySettings (world p) in
  {| world :=
       (set_settings {| rotate := v; steps := steps st; hsl := hsl st |}
          (world p)).2;
     camera_aspect := camera_aspect p;
     renderer_size := renderer_size p;
     tween_paused := tween_paused p;
     gui_hidden := gui_hidden p;
     butterfly_position := butterfly_position p |}.

(** The callback of the Rotate control, lines 186 to 192. *)
Definition on_rotate (v : bool) (p : Page num) : Page num :=
  let p := set_rotate v p in
  if rotate (butterflySettings (world p))
  then tween_set_paused false p
  else tween_set_paused true p.

(** A control that regenerates the geometry acts on the wings only. *)
Definition on_changed (c : Change num) (p : Page num) : Page num :=
  {| world := (onChange setHSL c (world p)).2;
     camera_aspect := camera_aspect p;
     renderer_size := renderer_size p;
     tween_paused := tween_paused p;
     gui_hidden := gui_hidden p;
     butterfly_position := butterfly_position p |}.

Definition handle (i : Input num) (p : Page num) : Page num :=
  match i with
  | Resize w h => on_resize w h p
  | KeyDown key => on_keydown key p
  | PositionChanged axis v => on_position axis v p
  | RotateChanged v => on_rotate v p
  | Changed c => on_changed c p
  end.

(** The page after start-up in a [w] by [h] window and the inputs [inputs],
    oldest first. *)
Definition run_page (w h : num) (inputs : list (Input num)) : Page num :=
  fold_left (fun p i => handle i p) inputs (initial_page w h).

End PageHandlers.

(** The state of the scenario after Rotate has been switched on and the
    Steps control then set to 100. *)
Definition scenario_world : World R :=
  (onChange hsl_to_rgb (ChangeSteps 100)
     (write_rotate true (initial_world hsl_to_rgb)).2).2.

(** What a list of inputs amounts to: the presses of the "g" key, the
    regenerating changes, the last value given to the Rotate control, and
    the last window size. *)
Definition is_toggle_key {num} (i : Input num) : bool :=
  match i with
  | KeyDown key => bool_decide (key = "g")
  | _ => false
  end.

Definition changes_of {num} (inputs : list (Input num)) : list (Change num) :=
  omap (fun i => match i with Changed c => Some c | _ => None end) inputs.

Definition last_rotate {num} (inputs : list (Input num)) : bool :=
  fold_left (fun b i => match i with RotateChanged v => v | _ => b end)
    inputs false.

Definition last_size {num} (w h : num) (inputs : list (Input num)) : num * num :=
  fold_left (fun s i => match i with Resize w' h' => (w', h') | _ => s end)
    inputs (w, h).

(** Two states with the same heap, attachments, trace, step count and hsl;
    they may differ in the [rotate] flag only. *)
Definition same_geometry {num} (w1 w2 : World num) : Prop :=
  attribute_heap w1 = attribute_heap w2 /\
  geometry_heap w1 = geometry_heap w2 /\
  wingLeft_geometry w1 = wingLeft_geometry w2 /\
  wingRight_geometry w1 = wingRight_geometry w2 /\
  events w1 = events w2 /\
  steps (butterflySettings w1) = steps (butterflySettings w2) /\
  hsl (butterflySettings w1) = hsl (butterflySettings w2).

(** ** The sampling loop *)

Section LoopFacts.
Context {num : Type} `{JSNumber num}.
Variable setHSL : num -> num -> num -> Color num.

Lemma lookup_app_mid (a b c : list num) (j : nat) :
  j < length b -> (a ++ b ++ c) !! (length a + j) = b !! j.
Proof.
  intros Hj. rewrite lookup_app_r by lia.
  rewrite lookup_app_l by lia. f_equal. lia.
Qed.

Lemma for_loop_step steps hsl i a :
  for_loop setHSL steps hsl i a =
  if Z_lt_dec i steps
  then for_loop setHSL steps hsl (i + 1) (body setHSL steps hsl i a)
  else a.
Proof.
  rewrite for_loop_equation_1.
  destruct (Z_lt_dec i steps); reflexivity.
Qed.

(** The loop terminates after [steps - i] iterations (none when
    [steps <= i]). *)
Lemma for_loop_iterations steps hsl n :
  forall i a, Z.to_nat (steps - i) = n ->
  for_loop setHSL steps hsl i a = iterations setHSL steps hsl n i a.
Proof.
  induction n as [|n IH]; intros i a Hn; rewrite for_loop_step.
  - destruct (Z_lt_dec i steps); [lia | reflexivity].
  - destruct (Z_lt_dec i steps); [| lia].
    simpl. apply IH. lia.
Qed.

Lemma sample_iterations steps hsl :
  for_loop setHSL steps hsl 0 no_arrays =
  iterations setHSL steps hsl (Z.to_nat steps) 0 no_arrays.
Proof. apply for_loop_iterations. f_equal. lia. Qed.

Lemma body_app steps hsl i a :
  pointsLeft (body setHSL steps hsl i a)
    = pointsLeft a ++ pointsLeft (item setHSL steps hsl i) /\
  pointsRight (body setHSL steps hsl i a)
    = pointsRight a ++ pointsRight (item setHSL steps hsl i) /\
  colors (body setHSL steps hsl i a)
    = colors a ++ colors (item setHSL steps hsl i).
Proof. repeat split. Qed.

Lemma item_length steps hsl i :
  length (pointsLeft (item setHSL steps hsl i)) = 3 /\
  length (pointsRight (item setHSL steps hsl i)) = 3 /\
  length (colors (item setHSL steps hsl i)) = 3.
Proof. repeat split. Qed.

(** Every array grows by three numbers per iteration. *)
Lemma iterations_length steps hsl n :
  forall i a,
  length (pointsLeft (iterations setHSL steps hsl n i a))
    = length (pointsLeft a) + 3 * n /\
  length (pointsRight (iterations setHSL steps hsl n i a))
    = length (pointsRight a) + 3 * n /\
  length (colors (iterations setHSL steps hsl n i a))
    = length (colors a) + 3 * n.
Proof.
  induction n as [|n IH]; intros i a; simpl.
  - repeat split; lia.
  - destruct (IH (i + 1)%Z (body setHSL steps hsl i a)) as (IL & IR & IC).
    rewrite IL, IR, IC. simpl. rewrite !length_app. simpl.
    repeat split; lia.
Qed.

(** Earlier entries are never overwritten. *)
Lemma iterations_prefix steps hsl n :
  forall i a,
  (exists l, pointsLeft (iterations setHSL steps hsl n i a) = pointsLeft a ++ l) /\
  (exists l, pointsRight (iterations setHSL steps hsl n i a) = pointsRight a ++ l) /\
  (exists l, colors (iterations setHSL steps hsl n i a) = colors a ++ l).
Proof.
  induction n as [|n IH]; intros i a; simpl.
  - repeat split; exists []; symmetry; apply app_nil_r.
  - destruct (IH (i + 1)%Z (body setHSL steps hsl i a))
      as ((l1 & E1) & (l2 & E2) & (l3 & E3)).
    rewrite E1, E2, E3. simpl. rewrite <- !app_assoc.
    repeat split; eexists; reflexivity.
Qed.

(** The [j]-th number of the [k]-th iteration sits at offset [3 * k + j]
    behind what the arrays held on entry. *)
Lemma iterations_lookup steps hsl n :
  forall i a k j, k < n -> j < 3 ->
  pointsLeft (iterations setHSL steps hsl n i a) !! (length (pointsLeft a) + 3 * k + j)
    = pointsLeft (item setHSL steps hsl (i + Z.of_nat k)) !! j /\
  pointsRight (iterations setHSL steps hsl n i a) !! (length (pointsRight a) + 3 * k + j)
    = pointsRight (item setHSL steps hsl (i + Z.of_nat k)) !! j /\
  colors (iterations setHSL steps hsl n i a) !! (length (colors a) + 3 * k + j)
    = colors (item setHSL steps hsl (i + Z.of_nat k)) !! j.
Proof.
  induction n as [|n IH]; intros i a k j Hk Hj; [lia |].
  simpl iterations. destruct k as [|k].
  - destruct (iterations_prefix steps hsl n (i + 1)%Z (body setHSL steps hsl i a))
      as ((l1 & E1) & (l2 & E2) & (l3 & E3)).
    rewrite E1, E2, E3. clear E1 E2 E3.
    destruct (body_app steps hsl i a) as (B1 & B2 & B3).
    rewrite B1, B2, B3, Z.add_0_r, <- !app_assoc, !Nat.mul_0_r, !Nat.add_0_r.
    destruct (item_length steps hsl i) as (L1 & L2 & L3).
    repeat split; apply lookup_app_mid; lia.
  - destruct (IH (i + 1)%Z (body setHSL steps hsl i a) k j) as (I1 & I2 & I3);
      [lia | lia |].
    destruct (body_app steps hsl i a) as (B1 & B2 & B3).
    destruct (item_length steps hsl i) as (L1 & L2 & L3).
    rewrite B1, !length_app, L1 in I1.
    rewrite B2, !length_app, L2 in I2.
    rewrite B3, !length_app, L3 in I3.
    replace (i + Z.of_nat (S k))%Z with (i + 1 + Z.of_nat k)%Z by lia.
    rewrite <- I1, <- I2, <- I3.
    repeat split; f_equal; lia.
Qed.

End LoopFacts.

(** ** Running the program *)

Section ProgramFacts.
Context {num : Type} `{JSNumber num}.
Variable setHSL : num -> num -> num -> Color num.

Lemma alter_first_of_two {A} (f : A -> A) (l : list A) (x y : A) :
  alter f (length l) (l ++ [x; y]) = l ++ [f x; y].
Proof.
  rewrite <- (Nat.add_0_r (length l)) at 1.
  rewrite alter_app_r. reflexivity.
Qed.

Lemma alter_second_of_two {A} (f : A -> A) (l : list A) (x y : A) :
  alter f (S (length l)) (l ++ [x; y]) = l ++ [x; f y].
Proof.
  replace (S (length l)) with (length l + 1) by lia.
  rewrite alter_app_r. reflexivity.
Qed.

(** The heap after [createButterflyGeometry]: three new attributes, two new
    geometries, the color attribute referenced by both. *)
Lemma createButterflyGeometry_run steps hsl w :
  createButterflyGeometry setHSL steps hsl w =
  let a := sample setHSL steps hsl in
  let na := length (attribute_heap w) in
  let ng := length (geometry_heap w) in
  ((ng, S ng),
   {| attribute_heap :=
        attribute_heap w ++
          [ {| array := Float32Array (pointsLeft a); itemSize := 3 |};
            {| array := Float32Array (pointsRight a); itemSize := 3 |};
            {| array := Float32Array (colors a); itemSize := 3 |} ];
      geometry_heap :=
        geometry_heap w ++
          [ <["color" := S (S na)]> (<["position" := na]> ∅);
            <["color" := S (S na)]> (<["position" := S na]> ∅) ];
      wingLeft_geometry := wingLeft_geometry w;
      wingRight_geometry := wingRight_geometry w;
      butterflySettings := butterflySettings w;
      events := events w |}).
Proof.
  unfold createButterflyGeometry.
  generalize (sample setHSL steps hsl). intros a.
  destruct w as [ah gh wl wr st ev].
  lazy beta iota zeta delta
    [mbind M_bind mret M_ret new_BufferAttribute new_BufferGeometry
     setAttribute attribute_heap geometry_heap wingLeft_geometry
     wingRight_geometry butterflySettings events].
  rewrite <- !app_assoc. cbn [app].
  rewrite !length_app. cbn [length].
  rewrite !Nat.add_1_r.
  rewrite alter_first_of_two, alter_second_of_two.
  rewrite alter_first_of_two, alter_second_of_two.
  replace (length ah + 2) with (S (S (length ah))) by lia.
  reflexivity.
Qed.

End ProgramFacts.

(** ** The buffers returned by [createButterflyGeometry] *)

Section GeometryFacts.
Context {num : Type} `{JSNumber num}.
Variable setHSL : num -> num -> num -> Color num.

Local Open Scope js_scope.

Lemma sample_length steps hsl :
  length (pointsLeft (sample setHSL steps hsl)) = (3 * Z.to_nat steps)%nat /\
  length (pointsRight (sample setHSL steps hsl)) = (3 * Z.to_nat steps)%nat /\
  length (colors (sample setHSL steps hsl)) = (3 * Z.to_nat steps)%nat.
Proof.
  unfold sample. rewrite sample_iterations.
  apply (iterations_length setHSL steps hsl (Z.to_nat steps) 0%Z no_arrays).
Qed.

Lemma sample_empty steps hsl :
  (steps <= 0)%Z -> sample setHSL steps hsl = no_arrays.
Proof.
  intros Hs. unfold sample. rewrite sample_iterations.
  replace (Z.to_nat steps) with 0%nat by lia. reflexivity.
Qed.

Lemma sample_lookup steps hsl (k j : nat) :
  (Z.of_nat k < steps)%Z -> (j < 3)%nat ->
  pointsLeft (sample setHSL steps hsl) !! (3 * k + j)%nat
    = pointsLeft (item setHSL steps hsl (Z.of_nat k)) !! j /\
  pointsRight (sample setHSL steps hsl) !! (3 * k + j)%nat
    = pointsRight (item setHSL steps hsl (Z.of_nat k)) !! j /\
  colors (sample setHSL steps hsl) !! (3 * k + j)%nat
    = colors (item setHSL steps hsl (Z.of_nat k)) !! j.
Proof.
  intros Hk Hj. unfold sample. rewrite sample_iterations.
  apply (iterations_lookup setHSL steps hsl (Z.to_nat steps) 0%Z no_arrays k j);
    lia.
Qed.

(** The [k]-th triple of each array is what iteration [k] pushed. *)
Lemma sample_triple steps hsl (k : nat) :
  (Z.of_nat k < steps)%Z ->
  triple_at (pointsLeft (sample setHSL steps hsl)) k
    = triple_at (pointsLeft (item setHSL steps hsl (Z.of_nat k))) 0 /\
  triple_at (pointsRight (sample setHSL steps hsl)) k
    = triple_at (pointsRight (item setHSL steps hsl (Z.of_nat k))) 0 /\
  triple_at (colors (sample setHSL steps hsl)) k
    = triple_at (colors (item setHSL steps hsl (Z.of_nat k))) 0.
Proof.
  intros Hk. unfold triple_at, getXYZ. cbn [array itemSize].
  destruct (sample_lookup steps hsl k 0 Hk) as (A0 & B0 & C0); [lia |].
  destruct (sample_lookup steps hsl k 1 Hk) as (A1 & B1 & C1); [lia |].
  destruct (sample_lookup steps hsl k 2 Hk) as (A2 & B2 & C2); [lia |].
  replace (k * 3)%nat with (3 * k + 0)%nat by lia.
  replace (3 * k + 0 + 1)%nat with (3 * k + 1)%nat by lia.
  replace (3 * k + 0 + 2)%nat with (3 * k + 2)%nat by lia.
  rewrite A0, A1, A2, B0, B1, B2, C0, C1, C2.
  repeat split.
Qed.

Lemma getXYZ_Float32Array (xs : list num) (i : nat) :
  getXYZ {| array := Float32Array xs; itemSize := 3 |} i
    = fround3 <$> triple_at xs i.
Proof.
  unfold triple_at, getXYZ, Float32Array. cbn [array itemSize].
  rewrite !list_lookup_fmap.
  destruct (xs !! (i * 3)%nat); [| reflexivity].
  destruct (xs !! (i * 3 + 1)%nat); [| reflexivity].
  destruct (xs !! (i * 3 + 2)%nat); reflexivity.
Qed.

(** The four attribute slots of the returned pair, read through the heap. *)
Lemma created_attributes steps hsl w :
  let a := sample setHSL steps hsl in
  let r := createButterflyGeometry setHSL steps hsl w in
  let na := length (attribute_heap w) in
  attribute_loc r.2 r.1.1 "position" = Some na /\
  attribute_loc r.2 r.1.2 "position" = Some (S na) /\
  attribute_loc r.2 r.1.1 "color" = Some (S (S na)) /\
  attribute_loc r.2 r.1.2 "color" = Some (S (S na)) /\
  attribute_heap r.2 !! na
    = Some {| array := Float32Array (pointsLeft a); itemSize := 3 |} /\
  attribute_heap r.2 !! S na
    = Some {| array := Float32Array (pointsRight a); itemSize := 3 |} /\
  attribute_heap r.2 !! S (S na)
    = Some {| array := Float32Array (colors a); itemSize := 3 |}.
Proof.
  intros a r na. subst r. rewrite createButterflyGeometry_run.
  cbn zeta. cbn [fst snd attribute_heap geometry_heap]. fold a. fold na.
  unfold attribute_loc. cbn [geometry_heap].
  rewrite !(lookup_app_r (geometry_heap w)) by lia.
  rewrite Nat.sub_diag.
  replace (S (length (geometry_heap w)) - length (geometry_heap w))%nat
    with 1%nat by lia.
  rewrite !(lookup_app_r (attribute_heap w)) by (subst na; lia).
  subst na. rewrite Nat.sub_diag.
  replace (S (length (attribute_heap w)) - length (attribute_heap w))%nat
    with 1%nat by lia.
  replace (S (S (length (attribute_heap w))) - length (attribute_heap w))%nat
    with 2%nat by lia.
  cbn [lookup list_lookup mbind option_bind].
  repeat split.
Qed.

End GeometryFacts.

Section GeometryClaims.
Context {num : Type} `{JSNumber num}.
Variable setHSL : num -> num -> num -> Color num.

Local Open Scope js_scope.

Lemma created_getAttribute steps hsl w :
  let a := sample setHSL steps hsl in
  let r := createButterflyGeometry setHSL steps hsl w in
  getAttribute r.2 r.1.1 "position"
    = Some {| array := Float32Array (pointsLeft a); itemSize := 3 |} /\
  getAttribute r.2 r.1.2 "position"
    = Some {| array := Float32Array (pointsRight a); itemSize := 3 |} /\
  getAttribute r.2 r.1.1 "color"
    = Some {| array := Float32Array (colors a); itemSize := 3 |} /\
  getAttribute r.2 r.1.2 "color"
    = Some {| array := Float32Array (colors a); itemSize := 3 |}.
Proof.
  intros a r.
  pose proof (created_attributes setHSL steps hsl w) as Hc.
  cbv zeta in Hc. fold r in Hc. fold a in Hc. clearbody r a.
  destruct Hc as (P1 & P2 & C1 & C2 & A1 & A2 & A3).
  unfold getAttribute. rewrite P1, P2, C1, C2. cbn.
  repeat split; assumption.
Qed.

Lemma created_item_of steps hsl w (i : nat) :
  let a := sample setHSL steps hsl in
  let r := createButterflyGeometry setHSL steps hsl w in
  item_of r.2 r.1.1 "position" i = fround3 <$> triple_at (pointsLeft a) i /\
  item_of r.2 r.1.2 "position" i = fround3 <$> triple_at (pointsRight a) i /\
  item_of r.2 r.1.1 "color" i = fround3 <$> triple_at (colors a) i /\
  item_of r.2 r.1.2 "color" i = fround3 <$> triple_at (colors a) i.
Proof.
  intros a r.
  pose proof (created_getAttribute steps hsl w) as Hg.
  cbv zeta in Hg. fold r in Hg. fold a in Hg. clearbody r a.
  destruct Hg as (G1 & G2 & G3 & G4).
  unfold item_of. rewrite G1, G2, G3, G4. cbn.
  rewrite !getXYZ_Float32Array. repeat split.
Qed.

Lemma has_entries_Float32Array (xs : list num) (n : nat) :
  length xs = (3 * n)%nat ->
  has_entries (Some {| array := Float32Array xs; itemSize := 3 |}) n.
Proof.
  intros Hl. eexists; split; [reflexivity |].
  unfold count, Float32Array. cbn [array itemSize].
  rewrite length_fmap, Hl. repeat split.
  rewrite Nat.mul_comm. apply Nat.div_mul. discriminate.
Qed.

(** C1. For every integer N > 0 and every sample index i in [0, N), the
    left point pushed at index i is (r sin t, r cos t, 0.5 sin 2t) with
    t = (i / N) 24 pi and r = e^(sin t) - 2 cos 4t + sin((2t - pi) / 24)^5,
    each operation being the one of the source; the position attribute of
    the returned left geometry stores that point converted by the
    Float32Array. *)
Theorem left_point_formula (N : Z) (hsl : HSL num) (w : World num) (i : nat) :
  (0 < N)%Z -> (Z.of_nat i < N)%Z ->
  let t := of_Z (Z.of_nat i) / of_Z N * of_Z 24 * Math_PI in
  let r := Math_exp (Math_sin t) - of_Z 2 * Math_cos (of_Z 4 * t)
           + Math_pow (Math_sin ((of_Z 2 * t - Math_PI) / of_Z 24)) (of_Z 5) in
  let p := (r * Math_sin t, r * Math_cos t, of_Q 0.5 * Math_sin (of_Z 2 * t)) in
  let res := createButterflyGeometry setHSL N hsl w in
  triple_at (pointsLeft (sample setHSL N hsl)) i = Some p /\
  item_of res.2 res.1.1 "position" i = Some (fround3 p).
Proof.
  intros HN Hi t r p res.
  assert (Hp : triple_at (pointsLeft (sample setHSL N hsl)) i = Some p).
  { destruct (sample_triple setHSL N hsl i Hi) as (E & _ & _).
    rewrite E. unfold triple_at, getXYZ, item, body. cbn.
    subst p r t. do 2 f_equal. apply js_mul_comm. }
  split; [exact Hp |].
  pose proof (created_item_of N hsl w i) as (E & _ & _).
  fold res in E. clearbody res. rewrite E, Hp. reflexivity.
Qed.

(** C2. For every integer N > 0 and every hsl, the returned left and right
    position attributes and the color attribute of either geometry have
    item size 3, a flat array of length 3N, hence exactly N entries. *)
Theorem buffers_have_N_entries (N : Z) (hsl : HSL num) (w : World num) :
  (0 < N)%Z ->
  let res := createButterflyGeometry setHSL N hsl w in
  has_entries (getAttribute res.2 res.1.1 "position") (Z.to_nat N) /\
  has_entries (getAttribute res.2 res.1.2 "position") (Z.to_nat N) /\
  has_entries (getAttribute res.2 res.1.1 "color") (Z.to_nat N) /\
  has_entries (getAttribute res.2 res.1.2 "color") (Z.to_nat N).
Proof.
  intros HN res.
  pose proof (created_getAttribute N hsl w) as (G1 & G2 & G3 & G4).
  fold res in G1, G2, G3, G4. clearbody res. rewrite G1, G2, G3, G4.
  destruct (sample_length setHSL N hsl) as (L1 & L2 & L3).
  repeat split; apply has_entries_Float32Array; assumption.
Qed.

(** C3. For every integer N > 0, every index i in [0, N) and every hsl, the
    right point at index i is (-x, y, z) where (x, y, z) is the left point
    at index i, both in the arrays filled by the loop and in the position
    attributes of the returned geometries. *)
Theorem right_point_mirrors_left (N : Z) (hsl : HSL num) (w : World num)
  (i : nat) :
  (0 < N)%Z -> (Z.of_nat i < N)%Z ->
  let a := sample setHSL N hsl in
  let res := createButterflyGeometry setHSL N hsl w in
  (exists x y z,
     triple_at (pointsLeft a) i = Some (x, y, z) /\
     triple_at (pointsRight a) i = Some (- x, y, z)) /\
  (exists x y z,
     item_of res.2 res.1.1 "position" i = Some (x, y, z) /\
     item_of res.2 res.1.2 "position" i = Some (- x, y, z)).
Proof.
  intros HN Hi a res.
  destruct (sample_triple setHSL N hsl i Hi) as (EL & ER & _).
  fold a in EL, ER.
  pose proof (created_item_of N hsl w i) as (IL & IR & _).
  fold res in IL, IR. fold a in IL, IR. clearbody res a.
  rewrite IL, IR, EL, ER.
  unfold triple_at, getXYZ, item, body. cbn.
  split.
  - eexists _, _, _. split; reflexivity.
  - eexists _, _, _. split; [reflexivity |].
    rewrite fround_neg. reflexivity.
Qed.

(** C4. For every integer N > 0 and every index i in [0, N), the color
    pushed at index i is the RGB triple of the color set by
    setHSL((h - 0.3 (i / N) + 1) % 1, s, l (i / N)); both geometries read
    that triple (as stored by the Float32Array) at index i, through one
    and the same color attribute object. *)
Theorem color_at_index (N : Z) (hsl : HSL num) (w : World num) (i : nat) :
  (0 < N)%Z -> (Z.of_nat i < N)%Z ->
  let q := of_Z (Z.of_nat i) / of_Z N in
  let c := setHSL ((hsl_h hsl - of_Q 0.3 * q + of_Z 1) rem of_Z 1)
                  (hsl_s hsl) (hsl_l hsl * q) in
  let rgb := (color_r c, color_g c, color_b c) in
  let res := createButterflyGeometry setHSL N hsl w in
  triple_at (colors (sample setHSL N hsl)) i = Some rgb /\
  item_of res.2 res.1.1 "color" i = Some (fround3 rgb) /\
  item_of res.2 res.1.2 "color" i = Some (fround3 rgb) /\
  (exists shared : loc,
     attribute_loc res.2 res.1.1 "color" = Some shared /\
     attribute_loc res.2 res.1.2 "color" = Some shared).
Proof.
  intros HN Hi q c rgb res.
  assert (Hc : triple_at (colors (sample setHSL N hsl)) i = Some rgb).
  { destruct (sample_triple setHSL N hsl i Hi) as (_ & _ & E).
    rewrite E. reflexivity. }
  pose proof (created_item_of N hsl w i) as (_ & _ & IL & IR).
  pose proof (created_attributes setHSL N hsl w) as (_ & _ & CL & CR & _).
  fold res in IL, IR, CL, CR. clearbody res.
  rewrite IL, IR, Hc.
  repeat split. eexists. split; eassumption.
Qed.

(** C9. For every N <= 0 and every hsl, the call returns (the model is a
    total function) and the loop body never runs: the three arrays are
    empty and every attribute of the returned geometries holds an empty
    array, that is zero entries. *)
Theorem nonpositive_steps_give_empty_buffers (N : Z) (hsl : HSL num)
  (w : World num) :
  (N <= 0)%Z ->
  let res := createButterflyGeometry setHSL N hsl w in
  let empty := {| array := []; itemSize := 3 |} in
  sample setHSL N hsl = no_arrays /\
  getAttribute res.2 res.1.1 "position" = Some empty /\
  getAttribute res.2 res.1.2 "position" = Some empty /\
  getAttribute res.2 res.1.1 "color" = Some empty /\
  getAttribute res.2 res.1.2 "color" = Some empty /\
  count empty = 0%nat.
Proof.
  intros HN res empty.
  pose proof (created_getAttribute N hsl w) as (G1 & G2 & G3 & G4).
  fold res in G1, G2, G3, G4. clearbody res.
  rewrite (sample_empty setHSL N hsl HN) in G1, G2, G3, G4 |- *.
  unfold no_arrays in G1, G2, G3, G4. cbn in G1, G2, G3, G4.
  split; [reflexivity |].
  split; [exact G1 |]. split; [exact G2 |].
  split; [exact G3 |]. split; [exact G4 |].
  reflexivity.
Qed.

End GeometryClaims.

(** ** The update contract *)

Section UpdateFacts.
Context {num : Type} `{JSNumber num}.
Variable setHSL : num -> num -> num -> Color num.

(** The state after [updateButterfly]: the heap of the call to
    [createButterflyGeometry], four more events, the new pair attached. *)
Lemma updateButterfly_run (w : World num) :
  (updateButterfly setHSL w).2 =
  let st := butterflySettings w in
  let r := createButterflyGeometry setHSL (steps st) (hsl st) w in
  {| attribute_heap := attribute_heap r.2;
     geometry_heap := geometry_heap r.2;
     wingLeft_geometry := r.1.1;
     wingRight_geometry := r.1.2;
     butterflySettings := butterflySettings w;
     events := events w ++
       [Dispose (wingLeft_geometry w); Dispose (wingRight_geometry w);
        SetGeometry WingLeft r.1.1; SetGeometry WingRight r.1.2] |}.
Proof.
  unfold updateButterfly, mbind, M_bind, get_settings.
  rewrite createButterflyGeometry_run.
  cbn. rewrite <- !app_assoc. reflexivity.
Qed.

Lemma elem_of_live (w : World num) (g : loc) :
  g ∈ live w <-> g < length (geometry_heap w) /\ g ∉ disposed (events w).
Proof.
  unfold live. rewrite elem_of_difference, elem_of_set_seq, elem_of_list_to_set.
  intuition lia.
Qed.

Lemma disposed_app (tr1 tr2 : list Event) :
  disposed (tr1 ++ tr2) = disposed tr1 ++ disposed tr2.
Proof. apply omap_app. Qed.

(** A geometry is live after an update iff it is one of the two just
    created, or it was live before and is not one of the two replaced. *)
Lemma live_after_update (w : World num) (g : loc) :
  g ∈ live (updateButterfly setHSL w).2 <->
  g < 2 + length (geometry_heap w) /\
  (g ∉ disposed (events w)) /\
  g <> wingLeft_geometry w /\ g <> wingRight_geometry w.
Proof.
  rewrite elem_of_live, updateButterfly_run. cbn zeta.
  rewrite createButterflyGeometry_run. cbn.
  rewrite length_app, disposed_app, elem_of_app. cbn.
  rewrite !elem_of_cons, elem_of_nil.
  intuition lia.
Qed.

End UpdateFacts.

Section UpdateClaims.
Context {num : Type} `{JSNumber num}.
Variable setHSL : num -> num -> num -> Color num.

Lemma update_getAttribute (w : World num) (k : Wing) (name : string) :
  let w' := (updateButterfly setHSL w).2 in
  let st := butterflySettings w in
  getAttribute w' (geometry_of w' k) name
    = built_attribute (sample setHSL (steps st) (hsl st)) k name.
Proof.
  intros w' st. subst w'. rewrite updateButterfly_run. cbn zeta. fold st.
  rewrite createButterflyGeometry_run. cbn zeta.
  unfold getAttribute, attribute_loc, built_attribute.
  destruct k; cbn [geometry_of wingLeft_geometry wingRight_geometry fst snd
                   geometry_heap attribute_heap].
  - rewrite (lookup_app_r (geometry_heap w)) by lia.
    rewrite Nat.sub_diag. cbn [lookup list_lookup mbind option_bind].
    rewrite !lookup_insert, lookup_empty.
    destruct (decide ("color" = name)) as [<- | Hc].
    + cbn. rewrite lookup_app_r by lia.
      replace (S (S (length (attribute_heap w))) - length (attribute_heap w))
        with 2 by lia.
      reflexivity.
    + rewrite (decide_False (P := name = "color")) by congruence.
      destruct (decide ("position" = name)) as [<- | Hp].
      * cbn. rewrite lookup_app_r by lia. rewrite Nat.sub_diag. reflexivity.
      * rewrite (decide_False (P := name = "position")) by congruence.
        reflexivity.
  - rewrite (lookup_app_r (geometry_heap w)) by lia.
    replace (S (length (geometry_heap w)) - length (geometry_heap w))
      with 1 by lia.
    cbn [lookup list_lookup mbind option_bind].
    rewrite !lookup_insert, lookup_empty.
    destruct (decide ("color" = name)) as [<- | Hc].
    + cbn. rewrite lookup_app_r by lia.
      replace (S (S (length (attribute_heap w))) - length (attribute_heap w))
        with 2 by lia.
      reflexivity.
    + rewrite (decide_False (P := name = "color")) by congruence.
      destruct (decide ("position" = name)) as [<- | Hp].
      * cbn. rewrite lookup_app_r by lia.
        replace (S (length (attribute_heap w)) - length (attribute_heap w))
          with 1 by lia.
        reflexivity.
      * rewrite (decide_False (P := name = "position")) by congruence.
        reflexivity.
Qed.

Lemma update_settings (w : World num) :
  butterflySettings (updateButterfly setHSL w).2 = butterflySettings w.
Proof. rewrite updateButterfly_run. reflexivity. Qed.

Lemma update_geometry_heap (w : World num) :
  length (geometry_heap (updateButterfly setHSL w).2)
    = 2 + length (geometry_heap w) /\
  wingLeft_geometry (updateButterfly setHSL w).2 = length (geometry_heap w) /\
  wingRight_geometry (updateButterfly setHSL w).2
    = S (length (geometry_heap w)) /\
  disposed (events (updateButterfly setHSL w).2)
    = disposed (events w) ++ [wingLeft_geometry w; wingRight_geometry w].
Proof.
  rewrite updateButterfly_run. cbn zeta.
  rewrite createButterflyGeometry_run. cbn.
  rewrite length_app, disposed_app. cbn. repeat split. lia.
Qed.

(** [updateButterfly] keeps the invariant. *)
Lemma update_one_live_pair (w : World num) :
  one_live_pair w -> one_live_pair (updateButterfly setHSL w).2.
Proof.
  intros (Hlive & Hne & Hdisp).
  destruct (update_geometry_heap w) as (Hlen & HL & HR & HD).
  assert (Hold : forall g, g ∈ live w <->
                   g = wingLeft_geometry w \/ g = wingRight_geometry w).
  { intros g. rewrite Hlive, elem_of_union, !elem_of_singleton.
    reflexivity. }
  assert (HwL : wingLeft_geometry w < length (geometry_heap w)).
  { apply (elem_of_live w). apply Hold. left; reflexivity. }
  assert (HwR : wingRight_geometry w < length (geometry_heap w)).
  { apply (elem_of_live w). apply Hold. right; reflexivity. }
  split; [| split].
  - apply set_eq. intros g. rewrite live_after_update, HL, HR.
    rewrite elem_of_union, !elem_of_singleton.
    split.
    + intros (Hg & Hnd & HnL & HnR).
      destruct (decide (g < length (geometry_heap w))) as [Hlt | Hge];
        [| lia].
      exfalso. assert (Hin : g ∈ live w) by (apply elem_of_live; auto).
      apply Hold in Hin. tauto.
    + intros Hg. repeat split.
      * lia.
      * intros Hin. apply Hdisp in Hin. lia.
      * lia.
      * lia.
  - rewrite HL, HR. lia.
  - intros g. rewrite HD, Hlen, elem_of_app, !elem_of_cons, elem_of_nil.
    intros [Hin | [-> | [-> | []]]]; [apply Hdisp in Hin |..]; lia.
Qed.

Lemma initial_one_live_pair : one_live_pair (initial_world setHSL).
Proof.
  unfold one_live_pair.
  split; [apply set_eq; intros g; rewrite elem_of_live |];
    unfold initial_world; rewrite createButterflyGeometry_run; cbn.
  - rewrite elem_of_union, !elem_of_singleton, elem_of_nil. lia.
  - split; [discriminate |].
    intros g Hg. apply elem_of_nil in Hg. contradiction.
Qed.

Lemma onChange_run (c : Change num) (w : World num) :
  (onChange setHSL c w).2 =
  (updateButterfly setHSL
     (set_settings (apply_change c (butterflySettings w)) w).2).2.
Proof. reflexivity. Qed.

Lemma reachable_one_live_pair (w : World num) :
  reachable setHSL w -> one_live_pair w.
Proof.
  induction 1 as [| c w Hw IH | v w Hw IH].
  - apply initial_one_live_pair.
  - rewrite onChange_run. apply update_one_live_pair. exact IH.
  - exact IH.
Qed.

End UpdateClaims.

Section ContractClaims.
Context {num : Type} `{JSNumber num}.
Variable setHSL : num -> num -> num -> Color num.

(** C7. Every execution of updateButterfly, from any state, appends to the
    trace exactly: dispose of the left wing's outgoing geometry, dispose of
    the right wing's outgoing geometry, then the assignment of the newly
    created left geometry, then of the right one.  Hence each assignment
    finds the geometry it replaces already disposed within that same
    execution. *)
Theorem update_disposes_before_replacing (w : World num) :
  let st := butterflySettings w in
  let created := (createButterflyGeometry setHSL (steps st) (hsl st) w).1 in
  let w' := (updateButterfly setHSL w).2 in
  events w' = events w ++ events_since w w' /\
  events_since w w' =
    [ Dispose (geometry_of w WingLeft);
      Dispose (geometry_of w WingRight);
      SetGeometry WingLeft created.1;
      SetGeometry WingRight created.2 ] /\
  (geometry_of w' WingLeft, geometry_of w' WingRight) = created /\
  released_before_replaced (geometry_of w) [] (events_since w w').
Proof.
  intros st created w'.
  assert (Hev : events_since w w' =
    [ Dispose (geometry_of w WingLeft);
      Dispose (geometry_of w WingRight);
      SetGeometry WingLeft created.1;
      SetGeometry WingRight created.2 ]).
  { unfold events_since. subst w'. rewrite updateButterfly_run.
    cbn [events]. rewrite drop_app_length. reflexivity. }
  split; [| split; [exact Hev | split]].
  - rewrite Hev. subst w'. rewrite updateButterfly_run. reflexivity.
  - subst w'. rewrite updateButterfly_run. cbn zeta.
    cbn [geometry_of wingLeft_geometry wingRight_geometry].
    subst created st. destruct (createButterflyGeometry _ _ _ _).1.
    reflexivity.
  - rewrite Hev. cbn.
    rewrite !elem_of_cons. split; [tauto |]. split; [tauto | exact I].
Qed.

(** C8. From start-up or after any control changes (regenerating changes
    and Rotate switched on or off, in any order), running
    updateButterfly twice in a row (the settings record is the same for
    both runs) leaves on each wing a geometry whose attributes equal,
    name by name and buffer by buffer, those attached after the first run;
    afterwards the live geometries (created and not disposed) are exactly
    the two attached ones, and these are distinct. *)
Theorem update_twice_same_as_once (w : World num) :
  reachable setHSL w ->
  let w1 := (updateButterfly setHSL w).2 in
  let w2 := (updateButterfly setHSL w1).2 in
  butterflySettings w1 = butterflySettings w /\
  butterflySettings w2 = butterflySettings w /\
  (forall k name,
     getAttribute w2 (geometry_of w2 k) name
       = getAttribute w1 (geometry_of w1 k) name) /\
  live w2 = {[ geometry_of w2 WingLeft; geometry_of w2 WingRight ]} /\
  geometry_of w2 WingLeft <> geometry_of w2 WingRight /\
  size (live w2) = 2.
Proof.
  intros Hreach w1 w2.
  assert (Hs1 : butterflySettings w1 = butterflySettings w)
    by apply update_settings.
  assert (Hs2 : butterflySettings w2 = butterflySettings w).
  { subst w2. rewrite update_settings. exact Hs1. }
  assert (Hinv : one_live_pair w2).
  { apply update_one_live_pair, update_one_live_pair,
      (reachable_one_live_pair setHSL), Hreach. }
  destruct Hinv as (Hlive & Hne & _).
  repeat split; try assumption.
  - intros k name. subst w2.
    rewrite (update_getAttribute setHSL w1 k name). subst w1.
    rewrite (update_getAttribute setHSL w k name).
    rewrite update_settings. reflexivity.
  - cbn [geometry_of]. rewrite Hlive.
    rewrite size_union
      by (apply disjoint_singleton_l; rewrite elem_of_singleton; exact Hne).
    rewrite !size_singleton. reflexivity.
Qed.

End ContractClaims.

(** ** Magnitudes, on the real numbers *)

Section RealClaims.
Variable setHSL : R -> R -> R -> Color R.

Local Open Scope R_scope.

Lemma Int_part_IZR (z : Z) : Int_part (IZR z) = z.
Proof. symmetry. apply Int_part_spec. lra. Qed.

Lemma Rpow_5 (x : R) : Rpow x (IZR 5) = x ^ 5.
Proof.
  unfold Rpow. rewrite Int_part_IZR.
  destruct (Req_dec_T (IZR 5) (IZR 5)) as [_ | Hne]; [| contradiction].
  reflexivity.
Qed.

(** For a non-negative dividend, [x % 1] is the fractional part. *)
Lemma Rrem_1_bounds (x : R) : 0 <= x -> 0 <= Rrem x 1 < 1.
Proof.
  intros Hx. unfold Rrem, Rtrunc.
  replace (x / 1) with x by lra.
  destruct (Rle_dec 0 x) as [_ | Hn]; [| contradiction].
  destruct (base_Int_part x) as (Hlo & Hhi). lra.
Qed.

Lemma Rrem_1_between_1_and_2 (x : R) : 1 <= x < 2 -> Rrem x 1 = x - 1.
Proof.
  intros Hx. unfold Rrem, Rtrunc.
  replace (x / 1) with x by lra.
  destruct (Rle_dec 0 x) as [_ | Hn]; [| lra].
  rewrite <- (Int_part_spec x 1) by lra. lra.
Qed.

(** C5. With N > 0 and l >= 0, the lightness passed to setHSL at index i is
    l (i / N) : it is 0 at i = 0, it never decreases when i grows, it stays
    at or below l, and its distance to l is l (N - i) / N, which shrinks
    to l / N at the last sample i = N - 1. *)
Theorem lightness_ramp (N : Z) (l : R) :
  (0 < N)%Z -> 0 <= l ->
  lightness l (pct N 0) = 0 /\
  (forall i j : Z, (i <= j)%Z ->
     lightness l (pct N i) <= lightness l (pct N j)) /\
  (forall i : Z, (0 <= i < N)%Z ->
     lightness l (pct N i) <= l /\
     l - lightness l (pct N i) = l * IZR (N - i) / IZR N) /\
  l - lightness l (pct N (N - 1)) = l / IZR N.
Proof.
  intros HN Hl. unfold lightness, pct. cbn.
  assert (HNr : 0 < IZR N) by (apply IZR_lt; exact HN).
  assert (Hinv : 0 < / IZR N) by (apply Rinv_0_lt_compat; exact HNr).
  split; [| split; [| split]].
  - unfold Rdiv. lra.
  - intros i j Hij. apply IZR_le in Hij.
    apply Rmult_le_compat_l; [exact Hl |].
    unfold Rdiv. apply Rmult_le_compat_r; lra.
  - intros i (Hi0 & HiN).
    assert (Hle : IZR i / IZR N <= 1).
    { apply IZR_lt in HiN. unfold Rdiv.
      replace 1 with (IZR N * / IZR N) by (field; lra).
      apply Rmult_le_compat_r; lra. }
    split; [nra |].
    rewrite minus_IZR. field. lra.
  - rewrite minus_IZR. field. lra.
Qed.

(** C6. For every h in [0, 1] and every pct in [0, 1] the hue argument
    (h - 0.3 pct + 1) % 1 lies in [0, 1); for h = 0.85 and pct = 1 it is
    0.55, over the reals and also in binary64 arithmetic, where the result
    is the double nearest to 0.55. *)
Theorem hue_wraps_into_unit_interval :
  (forall h p : R, 0 <= h <= 1 -> 0 <= p <= 1 -> 0 <= hue h p < 1) /\
  hue (of_Q 0.85) (of_Z 1) = of_Q 0.55 :> R /\
  hue (of_Q 0.85) (of_Z 1) = of_Q 0.55 :> PrimFloat.float.
Proof.
  split; [| split].
  - intros h p Hh Hp. unfold hue. cbn.
    apply Rrem_1_bounds. unfold Q2R. cbn. lra.
  - unfold hue. cbn. rewrite Rrem_1_between_1_and_2.
    + unfold Q2R. cbn. lra.
    + unfold Q2R. cbn. lra.
  - vm_compute. reflexivity.
Qed.

Lemma hue2rgb_0 (t : R) : hue2rgb 0 0 t = 0.
Proof.
  unfold hue2rgb.
  repeat match goal with
         | |- context [Rlt_dec ?a ?b] => destruct (Rlt_dec a b)
         end; ring.
Qed.

(** With the textbook conversion, lightness 0 is black whatever the hue and
    the saturation: the ramp starts from black. *)
Lemma hsl_to_rgb_black (h s : R) :
  hsl_to_rgb h s 0 = {| color_r := 0; color_g := 0; color_b := 0 |}.
Proof.
  unfold hsl_to_rgb.
  destruct (Req_dec_T s 0); [reflexivity |].
  destruct (Rle_dec 0 (1 / 2)) as [_ | Hn]; [| lra].
  replace (0 * (1 + s)) with 0 by ring.
  replace (2 * 0 - 0) with 0 by ring.
  rewrite !hue2rgb_0. reflexivity.
Qed.

Lemma sin_even_pi (k : nat) : sin (2 * INR k * PI) = 0.
Proof. rewrite <- (Rplus_0_l (2 * INR k * PI)), sin_period. apply sin_0. Qed.

Lemma cos_even_pi (k : nat) : cos (2 * INR k * PI) = 1.
Proof. rewrite <- (Rplus_0_l (2 * INR k * PI)), cos_period. apply cos_0. Qed.

(** The angle of sample 2 of 4 is twelve half-turns. *)
Lemma scenario_angles :
  let t := 2 / 4 * 24 * PI in
  sin t = 0 /\ cos t = 1 /\ cos (4 * t) = 1 /\ sin (2 * t) = 0 /\
  (2 * t - PI) / 24 = 23 * PI / 24.
Proof.
  intros t. subst t.
  replace ((2 * (2 / 4 * 24 * PI) - PI) / 24) with (23 * PI / 24) by field.
  replace (2 / 4 * 24 * PI) with (2 * INR 6 * PI) by (simpl; field).
  replace (4 * (2 * INR 6 * PI)) with (2 * INR 24 * PI) by (simpl; field).
  replace (2 * (2 * INR 6 * PI)) with (2 * INR 12 * PI) by (simpl; field).
  rewrite !sin_even_pi, !cos_even_pi. repeat split.
Qed.

Lemma first_item (N : Z) (hsl : HSL R) :
  let r0 := exp (sin 0) - 2 * cos (4 * 0) + sin ((2 * 0 - PI) / 24) ^ 5 in
  pointsLeft (item setHSL N hsl 0) = [0; r0; 0] /\
  pointsRight (item setHSL N hsl 0) = [0; r0; 0].
Proof.
  intros r0. unfold item, body. cbn.
  replace (0 / IZR N * 24 * PI) with 0 by (unfold Rdiv; ring).
  rewrite Rpow_5. fold r0.
  replace (2 * 0) with 0 by ring.
  rewrite sin_0, cos_0.
  replace (r0 * 0) with 0 by ring.
  replace (r0 * 1) with r0 by ring.
  replace (0 * Q2R 0.5) with 0 by ring.
  replace (- 0) with 0 by ring.
  split; reflexivity.
Qed.

(** On the real numbers, where [r * 0 = 0] and [- 0 = 0]: for every
    integer N > 0 and every hsl, the first vertex of the left wing and the
    first vertex of the right wing are the same point (0, r(0), 0), with
    r(0) the radius formula at t = 0, which is -1 - sin(pi / 24)^5. *)
Lemma first_vertex_shared (N : Z) (hsl : HSL R) (w : World R) :
  (0 < N)%Z ->
  let r0 := exp (sin 0) - 2 * cos (4 * 0) + sin ((2 * 0 - PI) / 24) ^ 5 in
  let res := createButterflyGeometry setHSL N hsl w in
  triple_at (pointsLeft (sample setHSL N hsl)) 0 = Some (0, r0, 0) /\
  triple_at (pointsRight (sample setHSL N hsl)) 0 = Some (0, r0, 0) /\
  item_of res.2 res.1.1 "position" 0 = Some (fround3 (0, r0, 0)) /\
  item_of res.2 res.1.2 "position" 0 = Some (fround3 (0, r0, 0)) /\
  r0 = - 1 - sin (PI / 24) ^ 5.
Proof.
  intros HN r0 res.
  pose proof (sample_triple setHSL N hsl 0) as (EL & ER & _); [lia |].
  pose proof (first_item N hsl) as (FL & FR). fold r0 in FL, FR.
  change (Z.of_nat 0) with 0%Z in EL, ER.
  rewrite FL in EL. rewrite FR in ER.
  pose proof (created_item_of setHSL N hsl w 0) as (IL & IR & _).
  fold res in IL, IR. clearbody res.
  rewrite IL, IR, EL, ER.
  repeat split.
  subst r0. replace (4 * 0) with 0 by ring.
  rewrite sin_0, cos_0, exp_0.
  replace ((2 * 0 - PI) / 24) with (- (PI / 24)) by field.
  rewrite sin_neg. ring.
Qed.

End RealClaims.

(** ** The colour arguments in binary64, at the default settings *)

Example float_rem_examples :
  float_rem (float_of_Q 5.5) (float_of_Z 2) = float_of_Q 1.5 /\
  float_rem (float_of_Q (-5.5)) (float_of_Z 2) = float_of_Q (-1.5) /\
  float_rem (float_of_Q 5.5) (float_of_Z (-2)) = float_of_Q 1.5 /\
  float_rem (float_of_Z (-4)) (float_of_Z 2) = PrimFloat.neg_zero /\
  float_rem (float_of_Z 4) (float_of_Z 0) = PrimFloat.nan.
Proof. vm_compute. repeat split. Qed.

(** With [h = 0.85] and [steps = 2000], every hue handed to [setHSL] is a
    double in [0, 1). *)
Example hue_binary64_default :
  forallb (fun i => in_unit_interval (hue (of_Q 0.85) (pct 2000 (Z.of_nat i))))
          (seq 0 2000) = true.
Proof. vm_compute. reflexivity. Qed.

(** With [l = 0.5] and [steps = 2000], the lightness handed to [setHSL] is
    [+0] at [i = 0], never decreases from one sample to the next and never
    exceeds [l]. *)
Example lightness_binary64_default :
  let L := fun i : nat => lightness (of_Q 0.5) (pct 2000 (Z.of_nat i)) in
  L 0 = PrimFloat.zero /\
  forallb (fun i => PrimFloat.leb (L i) (L (S i))) (seq 0 1999) = true /\
  forallb (fun i => PrimFloat.leb (L i) (of_Q 0.5)) (seq 0 2000) = true.
Proof. vm_compute. repeat split. Qed.

(** ** The first vertex in binary64

    On doubles the first sample has [x = r(0) * 0] with [r(0) < 0], a
    negative zero, which the mirror turns into a positive zero. *)

Section FirstVertexBinary64.
Import PrimFloat.

Lemma iter_pos_nat {A} (f : A -> A) (k : positive) (x : A) :
  SpecFloat.iter_pos f k x = Nat.iter (Pos.to_nat k) f x.
Proof.
  revert x. induction k as [k IH | k IH |]; intros x; cbn [SpecFloat.iter_pos].
  - rewrite !IH, Pos2Nat.inj_xI.
    replace (S (2 * Pos.to_nat k)) with (Pos.to_nat k + (Pos.to_nat k + 1))%nat by lia.
    rewrite !Nat.iter_add. reflexivity.
  - rewrite !IH, Pos2Nat.inj_xO.
    replace (2 * Pos.to_nat k)%nat with (Pos.to_nat k + Pos.to_nat k)%nat by lia.
    rewrite Nat.iter_add. reflexivity.
  - reflexivity.
Qed.

Lemma pos_iter_nat {A} (f : A -> A) (k : positive) (x : A) :
  Pos.iter f x k = Nat.iter (Pos.to_nat k) f x.
Proof. apply Pos2Nat.inj_iter. Qed.

Lemma digits2_pos_iter_xO (k : nat) (m : positive) :
  Zpos (SpecFloat.digits2_pos (Nat.iter k xO m))
  = (Zpos (SpecFloat.digits2_pos m) + Z.of_nat k)%Z.
Proof.
  induction k as [| k IH].
  - cbn [Nat.iter nat_rect]. lia.
  - rewrite Nat.iter_succ. cbn [SpecFloat.digits2_pos].
    rewrite Pos2Z.inj_succ, IH. lia.
Qed.

Lemma shr_1_iter_xO (k : nat) (m : positive) :
  Nat.iter k SpecFloat.shr_1
    {| SpecFloat.shr_m := Zpos (Nat.iter k xO m);
       SpecFloat.shr_r := false; SpecFloat.shr_s := false |}
  = {| SpecFloat.shr_m := Zpos m;
       SpecFloat.shr_r := false; SpecFloat.shr_s := false |}.
Proof.
  induction k as [| k IH].
  - reflexivity.
  - rewrite Nat.iter_succ_r, Nat.iter_succ. cbn [SpecFloat.shr_1 orb]. exact IH.
Qed.

Lemma digits2_pos_bound (p k : positive) :
  (Zpos p < 2 ^ Zpos k)%Z -> (Zpos (SpecFloat.digits2_pos p) <= Zpos k)%Z.
Proof.
  revert k. induction p as [p IH | p IH |]; intros k Hk;
    cbn [SpecFloat.digits2_pos]; [| | lia].
  all: rewrite Pos2Z.inj_succ.
  all: assert (Hk1 : (1 < Zpos k)%Z)
    by (destruct (Z.eq_dec (Zpos k) 1%Z) as [E | E];
        [rewrite E in Hk; change (2 ^ 1)%Z with 2%Z in Hk; lia | lia]).
  all: specialize (IH (Pos.pred k)).
  all: rewrite Pos2Z.inj_pred in IH by lia.
  all: assert (E2 : (2 ^ Zpos k = 2 * 2 ^ Z.pred (Zpos k))%Z)
    by (rewrite <- Z.pow_succ_r by lia; f_equal; lia).
  all: rewrite E2 in Hk.
  all: assert (Zpos p < 2 ^ Z.pred (Zpos k))%Z by lia.
  all: specialize (IH ltac:(assumption)); lia.
Qed.

(** Rounding leaves a mantissa already in canonical form as it is. *)
Lemma binary_round_aux_canonical (s : bool) (m : positive) (e : Z) :
  SpecFloat.bounded FloatOps.prec FloatOps.emax m e = true ->
  SpecFloat.binary_round_aux FloatOps.prec FloatOps.emax s (Zpos m) e
    SpecFloat.loc_Exact
  = SpecFloat.S754_finite s m e.
Proof.
  unfold SpecFloat.bounded, SpecFloat.canonical_mantissa.
  intros Hb. apply andb_prop in Hb as [Hc Hle]. apply Z.eqb_eq in Hc.
  unfold SpecFloat.binary_round_aux, SpecFloat.shr_fexp.
  cbn [SpecFloat.Zdigits2 SpecFloat.shr_record_of_loc].
  rewrite Hc, Z.sub_diag.
  cbn [SpecFloat.shr SpecFloat.shr_m SpecFloat.loc_of_shr_record
       SpecFloat.round_nearest_even SpecFloat.Zdigits2
       SpecFloat.shr_record_of_loc].
  rewrite Hc, Z.sub_diag. cbn [SpecFloat.shr SpecFloat.shr_m].
  rewrite Hle. reflexivity.
Qed.

(** The same mantissa followed by [k] zero bits, at an exponent [k] lower,
    is rounded to it. *)
Lemma binary_round_aux_shifted (s : bool) (m k : positive) (e : Z) :
  SpecFloat.bounded FloatOps.prec FloatOps.emax m e = true ->
  SpecFloat.binary_round_aux FloatOps.prec FloatOps.emax s
    (Zpos (Pos.iter xO m k)) (e - Zpos k) SpecFloat.loc_Exact
  = SpecFloat.S754_finite s m e.
Proof.
  unfold SpecFloat.bounded, SpecFloat.canonical_mantissa.
  intros Hb. apply andb_prop in Hb as [Hc Hle]. apply Z.eqb_eq in Hc.
  unfold SpecFloat.binary_round_aux, SpecFloat.shr_fexp.
  cbn [SpecFloat.Zdigits2 SpecFloat.shr_record_of_loc].
  rewrite pos_iter_nat, digits2_pos_iter_xO, positive_nat_Z.
  replace (Zpos (SpecFloat.digits2_pos m) + Zpos k + (e - Zpos k))%Z
    with (Zpos (SpecFloat.digits2_pos m) + e)%Z by lia.
  rewrite Hc.
  replace (e - (e - Zpos k))%Z with (Zpos k) by lia.
  cbn [SpecFloat.shr].
  rewrite iter_pos_nat, shr_1_iter_xO.
  replace (e - Zpos k + Zpos k)%Z with e by lia.
  cbn [SpecFloat.shr_m SpecFloat.loc_of_shr_record
       SpecFloat.round_nearest_even SpecFloat.Zdigits2
       SpecFloat.shr_record_of_loc].
  rewrite Hc, Z.sub_diag. cbn [SpecFloat.shr SpecFloat.shr_m].
  rewrite Hle. reflexivity.
Qed.

(** [x * 1] is [x], for every double. *)
Lemma float_mul_one (x : float) : (x * 1)%float = x.
Proof.
  apply FloatAxioms.Prim2SF_inj. rewrite FloatAxioms.mul_spec.
  pose proof (FloatAxioms.Prim2SF_valid x) as Hv.
  change (FloatOps.Prim2SF 1%float)
    with (SpecFloat.S754_finite false (Pos.iter xO 1%positive 52) (-52)).
  destruct (FloatOps.Prim2SF x) as [s | s | | s m e];
    unfold FloatAxioms.SF64mul, SpecFloat.SFmul;
    rewrite ?xorb_false_r; try reflexivity.
  cbn [SpecFloat.valid_binary] in Hv.
  replace (m * Pos.iter xO 1 52)%positive with (Pos.iter xO m 52).
  - apply (binary_round_aux_shifted s m 52 e Hv).
  - rewrite !pos_iter_nat.
    generalize (Pos.to_nat 52). intros n. induction n as [| n IH].
    + cbn [Nat.iter nat_rect]. rewrite Pos.mul_1_r. reflexivity.
    + rewrite !Nat.iter_succ, Pos.mul_xO_r, IH. reflexivity.
Qed.

(** A positive integer below [2^53] is read as a positive finite double. *)
Lemma float_of_Z_positive (N : Z) :
  (0 < N < 2 ^ 53)%Z ->
  exists m e, FloatOps.Prim2SF (float_of_Z N) = SpecFloat.S754_finite false m e.
Proof.
  intros [H0 H1]. destruct N as [| p | p]; try lia.
  cbn [float_of_Z]. rewrite FloatAxioms.of_uint63_spec, Uint63.of_Z_spec.
  rewrite Z.mod_small
    by (split; [lia |]; apply (Z.lt_trans _ (2 ^ 53)); [exact H1 | reflexivity]).
  cbn [SpecFloat.binary_normalize]. unfold SpecFloat.binary_round.
  pose proof (digits2_pos_bound p 53 H1) as Hd.
  set (d := SpecFloat.digits2_pos p) in *.
  assert (Hf : SpecFloat.fexp FloatOps.prec FloatOps.emax (Zpos d + 0)
               = (Zpos d - 53)%Z).
  { unfold SpecFloat.fexp, SpecFloat.emin.
    change FloatOps.prec with 53%Z. change FloatOps.emax with 1024%Z. lia. }
  rewrite Hf. unfold SpecFloat.shl_align.
  assert (Hcanon : forall q e, Zpos (SpecFloat.digits2_pos q) = 53%Z ->
             (-52 <= e <= 0)%Z ->
             SpecFloat.bounded FloatOps.prec FloatOps.emax q e = true).
  { intros q e Hq He. unfold SpecFloat.bounded, SpecFloat.canonical_mantissa.
    rewrite Hq. apply andb_true_intro. split.
    - apply Z.eqb_eq. unfold SpecFloat.fexp, SpecFloat.emin.
      change FloatOps.prec with 53%Z. change FloatOps.emax with 1024%Z. lia.
    - apply Z.leb_le. change FloatOps.prec with 53%Z.
      change FloatOps.emax with 1024%Z. lia. }
  destruct (Zpos d - 53 - 0)%Z as [| k | k] eqn:Ek; try lia.
  - rewrite binary_round_aux_canonical; [eauto |].
    apply Hcanon; [fold d |]; lia.
  - rewrite binary_round_aux_canonical; [eauto |].
    apply Hcanon.
    + rewrite pos_iter_nat, digits2_pos_iter_xO, positive_nat_Z.
      fold d. lia.
    + lia.
Qed.

(** The first quotient [0 / N] of the loop is [+0]. *)
Lemma float_zero_div (N : Z) :
  (0 < N < 2 ^ 53)%Z -> (0 / float_of_Z N)%float = 0%float.
Proof.
  intros HN. destruct (float_of_Z_positive N HN) as (m & e & Hm).
  apply FloatAxioms.Prim2SF_inj. rewrite FloatAxioms.div_spec, Hm. reflexivity.
Qed.

(** A negative finite double. *)
Lemma float_negative_finite (r : float) :
  (neg_infinity <? r)%float = true -> (r <? 0)%float = true ->
  exists m e, FloatOps.Prim2SF r = SpecFloat.S754_finite true m e.
Proof.
  rewrite !FloatAxioms.ltb_spec.
  change (FloatOps.Prim2SF neg_infinity) with (SpecFloat.S754_infinity true).
  change (FloatOps.Prim2SF 0%float) with (SpecFloat.S754_zero false).
  destruct (FloatOps.Prim2SF r) as [[|] | [|] | | [|] m e];
    cbn; try discriminate.
  intros _ _. eauto.
Qed.

(** A negative finite double times [+0] is [-0]. *)
Lemma float_negative_mul_zero (r : float) :
  (neg_infinity <? r)%float = true -> (r <? 0)%float = true ->
  (r * 0)%float = neg_zero.
Proof.
  intros H1 H2. destruct (float_negative_finite r H1 H2) as (m & e & Hr).
  apply FloatAxioms.Prim2SF_inj. rewrite FloatAxioms.mul_spec, Hr. reflexivity.
Qed.

Lemma neg_zero_not_zero : neg_zero <> 0%float.
Proof.
  intros E. apply (f_equal FloatOps.Prim2SF) in E. vm_compute in E.
  discriminate E.
Qed.

Variables fsin fcos fexp : float -> float.
Variable fpow : float -> float -> float.
Variable setHSL : float -> float -> float -> Color float.

(** What the first iteration appends to the two point arrays. *)
Lemma first_item_binary64 (N : Z) (hsl : HSL float) :
  (0 < N < 2 ^ 53)%Z ->
  fsin 0%float = 0%float -> fcos 0%float = 1%float ->
  let r0 := (fexp (fsin 0) - 2 * fcos (4 * 0)
             + fpow (fsin ((2 * 0 - float_PI) / 24)) 5)%float in
  (neg_infinity <? r0)%float = true -> (r0 <? 0)%float = true ->
  let first := item (H := binary64_JSNumber fsin fcos fexp fpow)
                 setHSL N hsl 0 in
  pointsLeft first = [neg_zero; r0; 0%float] /\
  pointsRight first = [0%float; r0; 0%float].
Proof.
  intros HN Hsin Hcos r0 Hfin Hneg first.
  set (t := (0 / float_of_Z N * 24 * float_PI)%float).
  assert (Ht : t = 0%float).
  { subst t. rewrite (float_zero_div N HN). reflexivity. }
  set (r := (fexp (fsin t) - 2 * fcos (4 * t)
             + fpow (fsin ((2 * t - float_PI) / 24)) 5)%float).
  change (pointsLeft first)
    with [(r * fsin t)%float; (r * fcos t)%float;
          (fsin (2 * t) * float_of_Q 0.5)%float].
  change (pointsRight first)
    with [(- (r * fsin t))%float; (r * fcos t)%float;
          (fsin (2 * t) * float_of_Q 0.5)%float].
  assert (Hr : r = r0) by (subst r r0; rewrite Ht; reflexivity).
  rewrite Hr, Ht. clearbody r0. clear r Hr t Ht.
  change (2 * 0)%float with 0%float.
  rewrite Hsin, Hcos, float_mul_one, (float_negative_mul_zero r0 Hfin Hneg).
  split; reflexivity.
Qed.


End FirstVertexBinary64.

Section StartUpBinary64.
Import PrimFloat.



End StartUpBinary64.

(** ** The statements at the worked scenario

    Each statement that carries a hypothesis is applied to four samples of
    [{h: 0, s: 1, l: 1}] from the start-up state, on the real numbers with
    the textbook colour conversion. *)

Lemma left_point_formula_witness :
  (0 < 4)%Z /\ (Z.of_nat 2 < 4)%Z /\
  triple_at (pointsLeft (sample hsl_to_rgb 4 scenario_hsl)) 2
    = Some (0, - 1 + sin (23 * PI / 24) ^ 5, 0)%R.
Proof.
  split; [reflexivity |]. split; [reflexivity |].
  rewrite (proj1 (left_point_formula hsl_to_rgb 4 scenario_hsl
                    (initial_world hsl_to_rgb) 2 eq_refl eq_refl)).
  cbn -[pow Z.of_nat]. change (Z.of_nat 2) with 2%Z. rewrite Rpow_5.
  destruct scenario_angles as (Hs & Hc & Hc4 & Hs2 & Ha).
  rewrite Hs, Hc, Hc4, Hs2, Ha, exp_0.
  rewrite !Rmult_0_r, !Rmult_1_r.
  replace (1 - 2 + sin (23 * PI / 24) ^ 5)%R
    with (- 1 + sin (23 * PI / 24) ^ 5)%R by ring.
  reflexivity.
Defined.

Lemma buffers_have_N_entries_witness :
  (0 < 4)%Z /\
  let res := createButterflyGeometry hsl_to_rgb 4 scenario_hsl
               (initial_world hsl_to_rgb) in
  has_entries (getAttribute res.2 res.1.1 "position") 4 /\
  has_entries (getAttribute res.2 res.1.2 "position") 4 /\
  has_entries (getAttribute res.2 res.1.1 "color") 4 /\
  has_entries (getAttribute res.2 res.1.2 "color") 4.
Proof.
  split; [reflexivity |].
  exact (buffers_have_N_entries hsl_to_rgb 4 scenario_hsl
           (initial_world hsl_to_rgb) eq_refl).
Defined.

Lemma right_point_mirrors_left_witness :
  (0 < 4)%Z /\ (Z.of_nat 2 < 4)%Z /\
  let res := createButterflyGeometry hsl_to_rgb 4 scenario_hsl
               (initial_world hsl_to_rgb) in
  exists x y z : R,
    item_of res.2 res.1.1 "position" 2 = Some (x, y, z) /\
    item_of res.2 res.1.2 "position" 2 = Some ((- x)%R, y, z).
Proof.
  split; [reflexivity |]. split; [reflexivity |].
  exact (proj2 (right_point_mirrors_left hsl_to_rgb 4 scenario_hsl
                  (initial_world hsl_to_rgb) 2 eq_refl eq_refl)).
Defined.

Lemma color_at_index_witness :
  (0 < 4)%Z /\ (Z.of_nat 2 < 4)%Z /\
  let c := hsl_to_rgb (Rrem (0 - Q2R 0.3 * (2 / 4) + 1) 1) 1 (1 * (2 / 4)) in
  triple_at (colors (sample hsl_to_rgb 4 scenario_hsl)) 2
    = Some (color_r c, color_g c, color_b c).
Proof.
  split; [reflexivity |]. split; [reflexivity |].
  exact (proj1 (color_at_index hsl_to_rgb 4 scenario_hsl
                  (initial_world hsl_to_rgb) 2 eq_refl eq_refl)).
Defined.

Lemma lightness_ramp_witness :
  (0 < 4)%Z /\ (0 <= 1)%R /\
  lightness 1%R (pct 4 0) = 0%R /\
  (1 - lightness 1%R (pct 4 (4 - 1)) = 1 / 4)%R.
Proof.
  assert (Hl : (0 <= 1)%R) by apply Rle_0_1.
  split; [reflexivity |]. split; [exact Hl |].
  destruct (lightness_ramp 4 1%R eq_refl Hl) as (H0 & _ & _ & Hlast).
  split; [exact H0 | exact Hlast].
Defined.

Lemma hue_wraps_into_unit_interval_witness :
  (0 <= Q2R 0.85 <= 1)%R /\ (0 <= 1 <= 1)%R /\
  (0 <= hue (Q2R 0.85) 1%R < 1)%R.
Proof.
  assert (Hh : (0 <= Q2R 0.85 <= 1)%R) by (unfold Q2R; cbn; lra).
  assert (Hp : (0 <= 1 <= 1)%R) by lra.
  split; [exact Hh |]. split; [exact Hp |].
  exact (proj1 hue_wraps_into_unit_interval (Q2R 0.85) 1%R Hh Hp).
Defined.

Lemma update_twice_same_as_once_witness :
  reachable hsl_to_rgb scenario_world /\
  let w1 := (updateButterfly hsl_to_rgb scenario_world).2 in
  let w2 := (updateButterfly hsl_to_rgb w1).2 in
  (forall k name,
     getAttribute w2 (geometry_of w2 k) name
       = getAttribute w1 (geometry_of w1 k) name) /\
  live w2 = {[ geometry_of w2 WingLeft; geometry_of w2 WingRight ]}.
Proof.
  assert (Hr : reachable hsl_to_rgb scenario_world).
  { exact (reachable_change hsl_to_rgb (ChangeSteps 100) _
             (reachable_rotate hsl_to_rgb true _
                (reachable_initial hsl_to_rgb))). }
  split; [exact Hr |].
  destruct (update_twice_same_as_once hsl_to_rgb scenario_world Hr)
    as (_ & _ & Hb & Hl & _).
  split; [exact Hb | exact Hl].
Defined.

Lemma nonpositive_steps_give_empty_buffers_witness :
  (-3 <= 0)%Z /\
  let res := createButterflyGeometry hsl_to_rgb (-3) scenario_hsl
               (initial_world hsl_to_rgb) in
  getAttribute res.2 res.1.1 "position" = Some {| array := []; itemSize := 3 |}.
Proof.
  assert (Hn : (-3 <= 0)%Z) by discriminate.
  split; [exact Hn |].
  exact (proj1 (proj2 (nonpositive_steps_give_empty_buffers hsl_to_rgb (-3)
                         scenario_hsl (initial_world hsl_to_rgb) Hn))).
Defined.

(** ** Further properties of [createButterflyGeometry] *)

Section GeometryExtras.
Context {num : Type} `{JSNumber num}.

(** The point arrays are computed without reading [hsl] or calling
    [setHSL]. *)
Lemma iterations_points_indep
  (setHSL setHSL' : num -> num -> num -> Color num) steps hsl hsl' n :
  forall i a a',
  pointsLeft a = pointsLeft a' -> pointsRight a = pointsRight a' ->
  pointsLeft (iterations setHSL steps hsl n i a)
    = pointsLeft (iterations setHSL' steps hsl' n i a') /\
  pointsRight (iterations setHSL steps hsl n i a)
    = pointsRight (iterations setHSL' steps hsl' n i a').
Proof.
  induction n as [|n IH]; intros i a a' HL HR; simpl.
  - split; assumption.
  - apply IH; unfold body; cbn [pointsLeft pointsRight].
    + rewrite HL. reflexivity.
    + rewrite HR. reflexivity.
Qed.

Lemma sample_points_indep
  (setHSL setHSL' : num -> num -> num -> Color num) steps hsl hsl' :
  pointsLeft (sample setHSL steps hsl) = pointsLeft (sample setHSL' steps hsl') /\
  pointsRight (sample setHSL steps hsl) = pointsRight (sample setHSL' steps hsl').
Proof.
  unfold sample. rewrite !sample_iterations.
  apply iterations_points_indep; reflexivity.
Qed.

(** X1. The vertex positions depend on the step count only: whatever the
    hsl triple and whatever colour conversion is used, the loop fills the
    same left and right point arrays, and the returned geometries hold equal
    position attributes. *)
Theorem positions_independent_of_colour
  (setHSL setHSL' : num -> num -> num -> Color num)
  (N : Z) (hsl hsl' : HSL num) (w w' : World num) :
  let r := createButterflyGeometry setHSL N hsl w in
  let r' := createButterflyGeometry setHSL' N hsl' w' in
  pointsLeft (sample setHSL N hsl) = pointsLeft (sample setHSL' N hsl') /\
  pointsRight (sample setHSL N hsl) = pointsRight (sample setHSL' N hsl') /\
  getAttribute r.2 r.1.1 "position" = getAttribute r'.2 r'.1.1 "position" /\
  getAttribute r.2 r.1.2 "position" = getAttribute r'.2 r'.1.2 "position".
Proof.
  intros r r'.
  pose proof (created_getAttribute setHSL N hsl w) as (G1 & G2 & _).
  pose proof (created_getAttribute setHSL' N hsl' w') as (G1' & G2' & _).
  fold r in G1, G2. fold r' in G1', G2'. clearbody r r'.
  destruct (sample_points_indep setHSL setHSL' N hsl hsl') as (EL & ER).
  rewrite G1, G2, G1', G2', EL, ER. repeat split.
Qed.

Variable setHSL : num -> num -> num -> Color num.

(** X2. A call allocates exactly three attributes and two geometries behind
    the objects already in the heap, returns the two new geometries (two
    different addresses), and touches nothing else: earlier objects, the
    geometries attached to the wings, the settings and the event trace are
    as before. *)
Theorem createButterflyGeometry_frame (N : Z) (hsl : HSL num) (w : World num) :
  let r := createButterflyGeometry setHSL N hsl w in
  r.1 = (length (geometry_heap w), S (length (geometry_heap w))) /\
  attribute_heap w `prefix_of` attribute_heap r.2 /\
  length (attribute_heap r.2) = length (attribute_heap w) + 3 /\
  geometry_heap w `prefix_of` geometry_heap r.2 /\
  length (geometry_heap r.2) = length (geometry_heap w) + 2 /\
  wingLeft_geometry r.2 = wingLeft_geometry w /\
  wingRight_geometry r.2 = wingRight_geometry w /\
  butterflySettings r.2 = butterflySettings w /\
  events r.2 = events w.
Proof.
  intros r. subst r. rewrite createButterflyGeometry_run. cbn.
  rewrite !length_app. cbn.
  repeat split; try (eexists; reflexivity).
Qed.

(** X3. Each returned geometry carries exactly the two attributes
    "position" and "color".  The two position attributes are different
    objects, and neither is the colour attribute. *)
Theorem created_geometries_shape (N : Z) (hsl : HSL num) (w : World num) :
  let r := createButterflyGeometry setHSL N hsl w in
  (exists mL mR,
     geometry_heap r.2 !! r.1.1 = Some mL /\
     geometry_heap r.2 !! r.1.2 = Some mR /\
     dom mL = {[ "position"; "color" ]} /\
     dom mR = {[ "position"; "color" ]}) /\
  (exists pL pR c,
     attribute_loc r.2 r.1.1 "position" = Some pL /\
     attribute_loc r.2 r.1.2 "position" = Some pR /\
     attribute_loc r.2 r.1.1 "color" = Some c /\
     pL <> pR /\ pL <> c /\ pR <> c).
Proof.
  intros r. split.
  - subst r. rewrite createButterflyGeometry_run. cbn.
    rewrite !(lookup_app_r (geometry_heap w)) by lia.
    rewrite Nat.sub_diag.
    replace (S (length (geometry_heap w)) - length (geometry_heap w))
      with 1 by lia.
    eexists _, _. split; [reflexivity |]. split; [reflexivity |].
    rewrite !dom_insert_L, dom_empty_L.
    split; apply set_eq; intros x;
      rewrite !elem_of_union, !elem_of_singleton, elem_of_empty; tauto.
  - pose proof (created_attributes setHSL N hsl w) as (P1 & P2 & C1 & _).
    fold r in P1, P2, C1. clearbody r.
    eexists _, _, _. split; [exact P1 |]. split; [exact P2 |].
    split; [exact C1 |]. lia.
Qed.

(** X4. After the Steps control is set to [v], whatever the state before,
    the position and colour attributes of both wings have exactly [v]
    entries, and none when [v] is zero or negative. *)
Theorem steps_change_sets_entry_count (v : Z) (w : World num) (k : Wing) :
  let w' := (onChange setHSL (ChangeSteps v) w).2 in
  has_entries (getAttribute w' (geometry_of w' k) "position") (Z.to_nat v) /\
  has_entries (getAttribute w' (geometry_of w' k) "color") (Z.to_nat v).
Proof.
  intros w'. subst w'. rewrite onChange_run.
  rewrite !update_getAttribute. cbn [butterflySettings set_settings snd
    apply_change steps hsl].
  unfold built_attribute. cbn.
  destruct (sample_length setHSL v (hsl (butterflySettings w))) as (L1 & L2 & L3).
  split; apply has_entries_Float32Array; [destruct k |]; assumption.
Qed.

End GeometryExtras.

(** ** Further properties of [updateButterfly] over whole runs *)

Section RunExtras.
Context {num : Type} `{JSNumber num}.
Variable setHSL : num -> num -> num -> Color num.

(** One regenerating change, spelled out. *)
Lemma onChange_shape (c : Change num) (w : World num) :
  let w' := (onChange setHSL c w).2 in
  length (geometry_heap w') = length (geometry_heap w) + 2 /\
  length (attribute_heap w') = length (attribute_heap w) + 3 /\
  wingLeft_geometry w' = length (geometry_heap w) /\
  wingRight_geometry w' = S (length (geometry_heap w)) /\
  events w' = events w ++
    [ Dispose (wingLeft_geometry w); Dispose (wingRight_geometry w);
      SetGeometry WingLeft (length (geometry_heap w));
      SetGeometry WingRight (S (length (geometry_heap w))) ] /\
  butterflySettings w' = apply_change c (butterflySettings w).
Proof.
  intros w'. subst w'. rewrite onChange_run, updateButterfly_run. cbn zeta.
  rewrite createButterflyGeometry_run. cbn.
  rewrite !length_app. cbn. repeat split.
Qed.

Lemma run_changes_snoc (cs : list (Change num)) (c : Change num) :
  run_changes setHSL (cs ++ [c])
    = (onChange setHSL c (run_changes setHSL cs)).2.
Proof. unfold run_changes. rewrite fold_left_app. cbn [fold_left]. reflexivity. Qed.

Lemma run_changes_nil : run_changes setHSL [] = initial_world setHSL.
Proof. unfold run_changes. cbn [fold_left]. reflexivity. Qed.

Lemma run_changes_reachable (cs : list (Change num)) :
  reachable setHSL (run_changes setHSL cs).
Proof.
  induction cs as [| c cs IH] using rev_ind.
  - rewrite run_changes_nil. apply reachable_initial.
  - rewrite run_changes_snoc. apply reachable_change. exact IH.
Qed.

Lemma initial_in_sync : in_sync setHSL (initial_world setHSL).
Proof.
  intros k name. unfold initial_world.
  rewrite createButterflyGeometry_run. cbn zeta.
  unfold getAttribute, attribute_loc, built_attribute.
  cbn [butterflySettings default_settings steps hsl].
  destruct k; cbn; rewrite !lookup_insert, lookup_empty.
  - destruct (decide ("color" = name)) as [<- | Hc]; [reflexivity |].
    rewrite (decide_False (P := name = "color")) by congruence.
    destruct (decide ("position" = name)) as [<- | Hp]; [reflexivity |].
    rewrite (decide_False (P := name = "position")) by congruence.
    reflexivity.
  - destruct (decide ("color" = name)) as [<- | Hc]; [reflexivity |].
    rewrite (decide_False (P := name = "color")) by congruence.
    destruct (decide ("position" = name)) as [<- | Hp]; [reflexivity |].
    rewrite (decide_False (P := name = "position")) by congruence.
    reflexivity.
Qed.

Lemma update_in_sync (w : World num) :
  in_sync setHSL (updateButterfly setHSL w).2.
Proof.
  intros k name. rewrite update_getAttribute, update_settings. reflexivity.
Qed.

Lemma reachable_in_sync (w : World num) :
  reachable setHSL w -> in_sync setHSL w.
Proof.
  induction 1 as [| c w Hw IH | v w Hw IH].
  - apply initial_in_sync.
  - rewrite onChange_run. apply update_in_sync.
  - intros k name. exact (IH k name).
Qed.

(** X5. In every state reachable from start-up by control changes
    (regenerating changes and Rotate switched on or off), each
    wing shows exactly the geometry that [createButterflyGeometry] builds
    from the current [butterflySettings]: the literal arguments of the
    start-up call agree with the initial settings record, and every change
    regenerates from the record it has just updated. *)
Theorem display_in_sync_with_settings (w : World num) :
  reachable setHSL w ->
  in_sync setHSL w /\
  forall k,
    has_entries (getAttribute w (geometry_of w k) "position")
      (Z.to_nat (steps (butterflySettings w))) /\
    has_entries (getAttribute w (geometry_of w k) "color")
      (Z.to_nat (steps (butterflySettings w))).
Proof.
  intros Hr. pose proof (reachable_in_sync w Hr) as Hs.
  split; [exact Hs |]. intros k. rewrite !Hs.
  unfold built_attribute. cbn.
  destruct (sample_length setHSL (steps (butterflySettings w))
              (hsl (butterflySettings w))) as (L1 & L2 & L3).
  split; apply has_entries_Float32Array; [destruct k |]; assumption.
Qed.

Lemma reachable_NoDup_disposed (w : World num) :
  reachable setHSL w -> NoDup (disposed (events w)).
Proof.
  induction 1 as [| c w Hw IH | v w Hw IH]; [| | exact IH].
  - unfold initial_world. rewrite createButterflyGeometry_run. cbn.
    apply NoDup_nil_2.
  - destruct (reachable_one_live_pair setHSL w Hw) as (Hlive & Hne & _).
    assert (HL : wingLeft_geometry w ∈ live w)
      by (rewrite Hlive, elem_of_union, !elem_of_singleton; tauto).
    assert (HR : wingRight_geometry w ∈ live w)
      by (rewrite Hlive, elem_of_union, !elem_of_singleton; tauto).
    apply elem_of_live in HL as (_ & HL). apply elem_of_live in HR as (_ & HR).
    pose proof (onChange_shape c w) as (_ & _ & _ & _ & Hev & _).
    cbv zeta in Hev. rewrite Hev, disposed_app. cbn.
    apply NoDup_app. split; [exact IH |]. split.
    + intros g Hg. rewrite !elem_of_cons, elem_of_nil.
      intros [-> | [-> | []]]; contradiction.
    + apply NoDup_cons. split.
      * rewrite elem_of_cons, elem_of_nil. tauto.
      * apply NoDup_singleton.
Qed.

(** X6. In every reachable state, rotating or not, no geometry has been
    disposed twice, only geometries that were created have been disposed,
    and the geometry attached to either wing has not been disposed: what is
    displayed is never a released geometry. *)
Theorem attached_never_disposed (w : World num) :
  reachable setHSL w ->
  NoDup (disposed (events w)) /\
  (forall g, g ∈ disposed (events w) -> g < length (geometry_heap w)) /\
  (forall k, geometry_of w k ∉ disposed (events w)) /\
  (forall k, geometry_of w k < length (geometry_heap w)).
Proof.
  intros Hr.
  destruct (reachable_one_live_pair setHSL w Hr) as (Hlive & Hne & Hd).
  assert (Hk : forall k, geometry_of w k ∈ live w).
  { intros k. rewrite Hlive, elem_of_union, !elem_of_singleton.
    destruct k; cbn; tauto. }
  split; [apply reachable_NoDup_disposed; exact Hr |].
  split; [exact Hd |].
  split; intros k; specialize (Hk k); apply elem_of_live in Hk; tauto.
Qed.

(** X7. The exact account of a run: after start-up and [n] regenerating
    changes the heap holds [2 (n + 1)] geometries and [3 (n + 1)]
    attributes, the wings hold the two newest geometries, the trace has
    [4 n] events, and the disposed geometries are all the older ones, each
    once, oldest first. *)
Theorem run_changes_account (cs : list (Change num)) :
  let w := run_changes setHSL cs in
  let n := length cs in
  length (geometry_heap w) = 2 * (n + 1) /\
  length (attribute_heap w) = 3 * (n + 1) /\
  wingLeft_geometry w = 2 * n /\
  wingRight_geometry w = 2 * n + 1 /\
  length (events w) = 4 * n /\
  disposed (events w) = seq 0 (2 * n).
Proof.
  induction cs as [| c cs IH] using rev_ind.
  - rewrite run_changes_nil. unfold initial_world.
    rewrite createButterflyGeometry_run. cbn. repeat split.
  - cbv zeta in IH |- *. rewrite run_changes_snoc.
    destruct IH as (Hg & Ha & HL & HR & He & Hd).
    pose proof (onChange_shape c (run_changes setHSL cs))
      as (Sg & Sa & SL & SR & Se & _).
    cbv zeta in Sg, Sa, SL, SR, Se.
    rewrite Sg, Sa, SL, SR, Se, !length_app, disposed_app, Hd, Hg, Ha, HL, HR, He.
    cbn [length disposed omap].
    repeat split; try lia.
    replace (2 * (length cs + 1)) with (2 * length cs + 2) by lia.
    rewrite seq_app. cbn. do 3 f_equal. lia.
Qed.

End RunExtras.

Section HistoryExtras.
Context {num : Type} `{JSNumber num}.
Variable setHSL : num -> num -> num -> Color num.

Lemma attached_after_app (tr1 tr2 : list Event) :
  forall att,
  attached_after att (tr1 ++ tr2) = attached_after (attached_after att tr1) tr2.
Proof.
  induction tr1 as [| [g | k g] tr1 IH]; intros att; cbn; auto.
Qed.

(** The monitor accepts a trace in two parts iff it accepts the first part
    and, resumed in the state the first part leaves, the second. *)
Lemma released_before_replaced_app (tr1 tr2 : list Event) :
  forall att rel,
  released_before_replaced att rel (tr1 ++ tr2) <->
  released_before_replaced att rel tr1 /\
  released_before_replaced (attached_after att tr1) (released_after rel tr1) tr2.
Proof.
  induction tr1 as [| [g | k g] tr1 IH]; intros att rel; cbn.
  - tauto.
  - apply IH.
  - rewrite IH. tauto.
Qed.

(** X8. Over the whole history of the page, from start-up through any
    number of regenerating changes and Rotate toggles, the trace satisfies
    the monitor: no wing's geometry was ever replaced without having been
    disposed earlier.  Moreover the trace accounts for every assignment:
    replaying it from the start-up attachment yields the geometries
    attached now. *)
Theorem history_released_before_replaced (w : World num) :
  reachable setHSL w ->
  released_before_replaced (geometry_of (initial_world setHSL)) [] (events w) /\
  forall k,
    attached_after (geometry_of (initial_world setHSL)) (events w) k
      = geometry_of w k.
Proof.
  induction 1 as [| c w Hw (IH1 & IH2) | v w Hw IH]; [| | exact IH].
  - unfold initial_world. rewrite createButterflyGeometry_run. cbn.
    split; [exact I | reflexivity].
  - pose proof (onChange_shape setHSL c w) as (_ & _ & SL & SR & Se & _).
    cbv zeta in SL, SR, Se. rewrite Se. split.
    + apply released_before_replaced_app. split; [exact IH1 |].
      cbn. rewrite (IH2 WingLeft), (IH2 WingRight). cbn.
      rewrite !elem_of_cons. tauto.
    + intros k. rewrite attached_after_app. cbn.
      destruct k; cbn; [rewrite SL | rewrite SR]; reflexivity.
Qed.

Lemma built_position (a : Arrays num) (k : Wing) :
  built_attribute a k "position"
    = Some {| array := Float32Array
                         match k with
                         | WingLeft => pointsLeft a
                         | WingRight => pointsRight a
                         end;
              itemSize := 3 |}.
Proof. reflexivity. Qed.

(** X9. Moving a colour control (Hue, Saturation or Lightness) regenerates
    the geometries but moves no vertex: in a reachable state, rotating or
    not, the position attribute each wing holds after the change equals the
    one it held before. *)
Theorem colour_change_keeps_positions (w : World num) (v : num) (k : Wing) :
  reachable setHSL w ->
  let unchanged c :=
    let w' := (onChange setHSL c w).2 in
    getAttribute w' (geometry_of w' k) "position"
      = getAttribute w (geometry_of w k) "position" in
  unchanged (ChangeHue v) /\
  unchanged (ChangeSaturation v) /\
  unchanged (ChangeLightness v).
Proof.
  intros Hr unchanged. subst unchanged. cbv beta zeta.
  rewrite (reachable_in_sync setHSL w Hr k "position").
  rewrite !onChange_run, !update_getAttribute, !built_position.
  cbn [butterflySettings set_settings snd apply_change steps hsl].
  set (st := butterflySettings w).
  repeat split; destruct k;
    first
      [ rewrite (proj1 (sample_points_indep setHSL setHSL (steps st) _ (hsl st)));
        reflexivity
      | rewrite (proj2 (sample_points_indep setHSL setHSL (steps st) _ (hsl st)));
        reflexivity ].
Qed.

End HistoryExtras.

(** ** Further magnitudes, on the real numbers *)

Section RealExtras.
Variable setHSL : R -> R -> R -> Color R.

Local Open Scope R_scope.

Lemma Rabs_le_iff (a b : R) : Rabs a <= b <-> - b <= a <= b.
Proof. unfold Rabs. destruct (Rcase_abs a); lra. Qed.

Lemma pow5_bound (s : R) : -1 <= s <= 1 -> -1 <= s ^ 5 <= 1.
Proof.
  intros Hs. apply Rabs_le_iff. rewrite <- RPow_abs.
  rewrite <- (pow1 5). apply pow_incr. split; [apply Rabs_pos |].
  apply Rabs_le_iff. exact Hs.
Qed.

Lemma exp_sin_bound (t : R) : 0 < exp (sin t) <= exp 1.
Proof.
  split; [apply exp_pos |].
  destruct (SIN_bound t) as (_ & [Hlt | Heq]).
  - left. apply exp_increasing. exact Hlt.
  - rewrite Heq. right. reflexivity.
Qed.

(** The radius of the curve stays between [-3] and [e + 3]. *)
Lemma radius_bound (t : R) :
  -3 <= exp (sin t) - 2 * cos (4 * t) + sin ((2 * t - PI) / 24) ^ 5
     <= exp 1 + 3.
Proof.
  pose proof (exp_sin_bound t) as He.
  pose proof (COS_bound (4 * t)) as Hc.
  pose proof (pow5_bound _ (SIN_bound ((2 * t - PI) / 24))) as Hp.
  lra.
Qed.

Lemma scaled_by_unit (r u b : R) :
  - b <= r <= b -> -1 <= u <= 1 -> Rabs (r * u) <= b.
Proof.
  intros Hr Hu. rewrite Rabs_mult.
  assert (Hra : Rabs r <= b) by (apply Rabs_le_iff; exact Hr).
  assert (Hua : Rabs u <= 1) by (apply Rabs_le_iff; exact Hu).
  pose proof (Rabs_pos r). pose proof (Rabs_pos u). nra.
Qed.

(** X10. Every vertex of either wing lies in the box
    [|x| <= e + 3], [|y| <= e + 3], [|z| <= 1/2], whatever the step count and
    the colours. *)
Theorem vertices_in_bounding_box (N : Z) (hsl : HSL R) (i : nat) :
  (Z.of_nat i < N)%Z ->
  exists x y z : R,
    triple_at (pointsLeft (sample setHSL N hsl)) i = Some (x, y, z) /\
    triple_at (pointsRight (sample setHSL N hsl)) i = Some (- x, y, z) /\
    Rabs x <= exp 1 + 3 /\ Rabs (- x) <= exp 1 + 3 /\
    Rabs y <= exp 1 + 3 /\ Rabs z <= 1 / 2.
Proof.
  intros Hi.
  destruct (sample_triple setHSL N hsl i Hi) as (EL & ER & _).
  rewrite EL, ER. unfold triple_at, getXYZ, item, body.
  cbn -[pow Z.of_nat]. rewrite Rpow_5.
  set (t := IZR (Z.of_nat i) / IZR N * 24 * PI).
  set (r := exp (sin t) - 2 * cos (4 * t) + sin ((2 * t - PI) / 24) ^ 5).
  assert (Hr : - (exp 1 + 3) <= r <= exp 1 + 3).
  { pose proof (radius_bound t) as Hb. fold r in Hb.
    pose proof (exp_pos 1). lra. }
  eexists _, _, _. split; [reflexivity |]. split; [reflexivity |].
  assert (Hx : Rabs (r * sin t) <= exp 1 + 3)
    by (apply scaled_by_unit; [exact Hr | apply SIN_bound]).
  split; [exact Hx |]. split; [rewrite Rabs_Ropp; exact Hx |].
  split; [apply scaled_by_unit; [exact Hr | apply COS_bound] |].
  rewrite Rmult_comm. apply scaled_by_unit; [| apply SIN_bound].
  unfold Q2R. cbn. lra.
Qed.

(** X11. The hue handed to [setHSL] differs from the raw hue [h - 0.3 pct]
    by a whole number of turns, lies strictly between -1 and 1, and takes
    the sign of [h - 0.3 pct + 1]: the added 1 keeps it non-negative exactly
    as long as [h - 0.3 pct >= -1], and below that the remainder is
    negative. *)
Theorem hue_is_raw_hue_modulo_turns (h p : R) :
  let d := h - 3 / 10 * p + 1 in
  (exists k : Z, hue h p = h - 3 / 10 * p - IZR k) /\
  -1 < hue h p < 1 /\
  (0 <= d -> 0 <= hue h p) /\
  (d < 0 -> hue h p <= 0).
Proof.
  intros d. unfold hue. cbn.
  replace (h - Q2R 0.3 * p + 1) with d by (subst d; unfold Q2R; cbn; field).
  unfold Rrem, Rtrunc. replace (d / 1) with d by field.
  destruct (Rle_dec 0 d) as [Hd | Hd].
  - destruct (base_Int_part d) as (Hlo & Hhi).
    split; [exists (Int_part d - 1)%Z; rewrite minus_IZR; subst d; lra |].
    split; [lra |]. split; intros; lra.
  - destruct (base_Int_part (- d)) as (Hlo & Hhi).
    split; [exists (- Int_part (- d) - 1)%Z;
            rewrite minus_IZR, opp_IZR; subst d; lra |].
    split; [lra |]. split; intros; lra.
Qed.

(** X12. If the colour conversion maps lightness 0 to black, as the
    textbook conversion does, then the first vertex of both wings is black
    for every step count N > 0 and every hsl: the ramp [l * pct] starts at
    0 whatever the configured lightness. *)
Theorem first_colour_is_black (N : Z) (hsl : HSL R) (w : World R) :
  (forall h s, setHSL h s 0 = {| color_r := 0; color_g := 0; color_b := 0 |}) ->
  (0 < N)%Z ->
  let res := createButterflyGeometry setHSL N hsl w in
  triple_at (colors (sample setHSL N hsl)) 0 = Some (0, 0, 0) /\
  item_of res.2 res.1.1 "color" 0 = Some (0, 0, 0) /\
  item_of res.2 res.1.2 "color" 0 = Some (0, 0, 0).
Proof.
  intros Hblack HN res.
  assert (Hc : triple_at (colors (sample setHSL N hsl)) 0 = Some (0, 0, 0)).
  { destruct (sample_triple setHSL N hsl 0) as (_ & _ & E); [lia |].
    change (Z.of_nat 0) with 0%Z in E.
    rewrite E. unfold triple_at, getXYZ, item, body, lightness, pct.
    cbn. replace (hsl_l hsl * (0 / IZR N)) with 0 by (unfold Rdiv; ring).
    rewrite Hblack. reflexivity. }
  pose proof (created_item_of setHSL N hsl w 0) as (_ & _ & IL & IR).
  fold res in IL, IR. clearbody res.
  rewrite IL, IR, Hc. repeat split.
Qed.

End RealExtras.

(** ** The other handlers of the page *)

Section PageExtras.
Context {num : Type} `{JSNumber num}.
Variable setHSL : num -> num -> num -> Color num.

Local Open Scope js_scope.

Lemma run_page_snoc (w h : num) (inputs : list (Input num)) (i : Input num) :
  run_page setHSL w h (inputs ++ [i]) = handle setHSL i (run_page setHSL w h inputs).
Proof. unfold run_page. rewrite fold_left_app. cbn [fold_left]. reflexivity. Qed.

Lemma run_page_nil (w h : num) :
  run_page setHSL w h [] = initial_page setHSL w h.
Proof. unfold run_page. cbn [fold_left]. reflexivity. Qed.

Lemma onChange_rotate (c : Change num) (w : World num) :
  rotate (butterflySettings (onChange setHSL c w).2)
    = rotate (butterflySettings w).
Proof.
  pose proof (onChange_shape setHSL c w) as (_ & _ & _ & _ & _ & Hs).
  cbv zeta in Hs. rewrite Hs. destruct c; reflexivity.
Qed.

(** X13. In every state of the page the rotation tween is playing exactly
    when the Rotate setting is on, and that setting is the last value the
    Rotate control delivered (off if it never did): no other input, and no
    geometry regeneration, starts or stops the rotation. *)
Theorem tween_follows_rotate_setting (w h : num) (inputs : list (Input num)) :
  let p := run_page setHSL w h inputs in
  tween_paused p = negb (rotate (butterflySettings (world p))) /\
  rotate (butterflySettings (world p)) = last_rotate inputs.
Proof.
  cbv zeta. induction inputs as [| i inputs (IH1 & IH2)] using rev_ind.
  - rewrite run_page_nil. unfold initial_page, initial_world.
    rewrite createButterflyGeometry_run. cbn. split; reflexivity.
  - rewrite run_page_snoc. unfold last_rotate in *. rewrite fold_left_app.
    cbn [fold_left]. rewrite <- IH2.
    destruct i as [w' h' | key | axis v | v | c]; cbn [handle].
    + split; [exact IH1 | reflexivity].
    + unfold on_keydown. destruct (decide (key = "g"));
        (split; [exact IH1 | reflexivity]).
    + split; [exact IH1 | reflexivity].
    + unfold on_rotate, set_rotate. cbn. destruct v; cbn; split; reflexivity.
    + unfold on_changed. cbn [world tween_paused].
      rewrite onChange_rotate. split; [exact IH1 | reflexivity].
Qed.

(** X14. The panel starts hidden and each press of the "g" key flips its
    visibility, so it is hidden exactly after an even number of presses;
    every other key and every other input leaves it as it is.  Pressing "g"
    twice restores the whole page state. *)
Theorem panel_visibility_is_parity_of_g_presses
  (w h : num) (inputs : list (Input num)) :
  gui_hidden (run_page setHSL w h inputs)
    = Nat.even (length (List.filter is_toggle_key inputs)) /\
  forall p : Page num, on_keydown "g" (on_keydown "g" p) = p.
Proof.
  split.
  - induction inputs as [| i inputs IH] using rev_ind.
    + rewrite run_page_nil. reflexivity.
    + rewrite run_page_snoc, List.filter_app, length_app.
      destruct i as [w' h' | key | axis v | v | c]; cbn [handle];
        try (cbn; rewrite Nat.add_0_r; exact IH).
      * unfold on_keydown. cbn [List.filter is_toggle_key].
        destruct (decide (key = "g")) as [Hg | Hg].
        -- rewrite (bool_decide_eq_true_2 _ Hg). cbn.
           rewrite IH, Nat.add_1_r, Nat.even_succ, <- Nat.negb_even.
           reflexivity.
        -- rewrite (bool_decide_eq_false_2 _ Hg). cbn.
           rewrite Nat.add_0_r. exact IH.
      * unfold on_rotate, set_rotate. cbn. rewrite Nat.add_0_r.
        destruct v; cbn; exact IH.
  - intros [wd ca rs tp gh bp]. unfold on_keydown.
    rewrite !decide_True by reflexivity. unfold gui_show. cbn.
    rewrite negb_involutive. reflexivity.
Qed.

(** X15. The camera's aspect ratio is always the quotient of the width and
    height last given to the renderer, and that size is the one of the last
    resize (or of the window at start-up): the two are only ever set
    together. *)
Theorem camera_aspect_matches_renderer (w h : num) (inputs : list (Input num)) :
  let p := run_page setHSL w h inputs in
  renderer_size p = last_size w h inputs /\
  camera_aspect p = (renderer_size p).1 / (renderer_size p).2.
Proof.
  cbv zeta. induction inputs as [| i inputs (IH1 & IH2)] using rev_ind.
  - rewrite run_page_nil. split; reflexivity.
  - rewrite run_page_snoc. unfold last_size in *. rewrite fold_left_app.
    cbn [fold_left]. rewrite <- IH1.
    destruct i as [w' h' | key | axis v | v | c]; cbn [handle].
    + split; reflexivity.
    + unfold on_keydown. destruct (decide (key = "g"));
        (split; [reflexivity | exact IH2]).
    + split; [reflexivity | exact IH2].
    + unfold on_rotate, set_rotate. cbn. destruct v; cbn;
        (split; [reflexivity | exact IH2]).
    + split; [reflexivity | exact IH2].
Qed.

Lemma on_rotate_world (v : bool) (p : Page num) :
  world (on_rotate v p) = (write_rotate v (world p)).2.
Proof.
  unfold on_rotate. destruct (rotate _); reflexivity.
Qed.

(** The reachable states are exactly the states the wings, heap, settings
    and trace take along the runs of the page, all five kinds of input
    included. *)
Lemma reachable_iff_page (w h : num) (s : World num) :
  reachable setHSL s <->
  exists inputs, s = world (run_page setHSL w h inputs).
Proof.
  split.
  - induction 1 as [| c s Hs (inputs & ->) | v s Hs (inputs & ->)].
    + exists []. rewrite run_page_nil. unfold initial_page. cbn [world].
      reflexivity.
    + exists (inputs ++ [Changed c]). rewrite run_page_snoc.
      cbn [handle on_changed world]. reflexivity.
    + exists (inputs ++ [RotateChanged v]). rewrite run_page_snoc.
      cbn [handle]. rewrite on_rotate_world. reflexivity.
  - intros (inputs & ->).
    induction inputs as [| i inputs IH] using rev_ind.
    + rewrite run_page_nil. unfold initial_page. cbn [world].
      apply reachable_initial.
    + rewrite run_page_snoc.
      destruct i as [w' h' | key | axis v | v | c]; cbn [handle].
      * exact IH.
      * unfold on_keydown. destruct (decide (key = "g")); exact IH.
      * exact IH.
      * rewrite on_rotate_world. apply reachable_rotate. exact IH.
      * cbn [on_changed world]. apply reachable_change. exact IH.
Qed.

Lemma changes_of_snoc (inputs : list (Input num)) (i : Input num) :
  changes_of (inputs ++ [i])
    = changes_of inputs ++ match i with Changed c => [c] | _ => [] end.
Proof. unfold changes_of. rewrite omap_app. destruct i; reflexivity. Qed.

Lemma onChange_same_geometry (c : Change num) (w1 w2 : World num) :
  same_geometry w1 w2 ->
  same_geometry (onChange setHSL c w1).2 (onChange setHSL c w2).2.
Proof.
  intros (Ha & Hg & HL & HR & He & Hs & Hh).
  unfold same_geometry.
  rewrite !onChange_run, !updateButterfly_run. cbn zeta.
  rewrite !createButterflyGeometry_run. cbn.
  rewrite Ha, Hg, HL, HR, He.
  assert (Hs' : steps (apply_change c (butterflySettings w1))
                = steps (apply_change c (butterflySettings w2)))
    by (destruct c; cbn; congruence).
  assert (Hh' : hsl (apply_change c (butterflySettings w1))
                = hsl (apply_change c (butterflySettings w2)))
    by (destruct c; cbn; congruence).
  rewrite Hs', Hh'. repeat split.
Qed.

Lemma same_geometry_invariants (w1 w2 : World num) :
  same_geometry w1 w2 ->
  one_live_pair w2 -> in_sync setHSL w2 ->
  one_live_pair w1 /\ in_sync setHSL w1.
Proof.
  intros (Ha & Hg & HL & HR & He & Hs & Hh) Hlive Hsync. split.
  - unfold one_live_pair, live in *. rewrite Hg, HL, HR, He. exact Hlive.
  - intros k name. specialize (Hsync k name).
    unfold getAttribute, attribute_loc in *.
    rewrite Ha, Hg, Hs, Hh.
    replace (geometry_of w1 k) with (geometry_of w2 k)
      by (destruct k; cbn; congruence).
    exact Hsync.
Qed.

(** X16. As far as the geometry goes, the page is where the regenerating
    changes alone would have brought it: resizes, key presses, position
    changes and Rotate toggles create, dispose and reattach nothing.  Hence
    in every state of the page exactly the attached pair is live and each
    wing shows the geometry of the current settings. *)
Theorem page_geometry_is_run_of_changes (w h : num) (inputs : list (Input num)) :
  let p := run_page setHSL w h inputs in
  same_geometry (world p) (run_changes setHSL (changes_of inputs)) /\
  one_live_pair (world p) /\
  in_sync setHSL (world p).
Proof.
  cbv zeta.
  assert (Hsame : same_geometry (world (run_page setHSL w h inputs))
                    (run_changes setHSL (changes_of inputs))).
  { induction inputs as [| i inputs IH] using rev_ind.
    - rewrite run_page_nil.
      change (changes_of (@nil (Input num))) with (@nil (Change num)).
      rewrite run_changes_nil. cbn. repeat split.
    - rewrite run_page_snoc, changes_of_snoc.
      destruct i as [w' h' | key | axis v | v | c]; cbn [handle];
        rewrite ?app_nil_r.
      + exact IH.
      + unfold on_keydown. destruct (decide (key = "g")); exact IH.
      + exact IH.
      + unfold on_rotate, set_rotate. cbn. destruct v; cbn; exact IH.
      + cbn [on_changed world].
        rewrite run_changes_snoc. apply onChange_same_geometry. exact IH. }
  split; [exact Hsame |].
  apply (same_geometry_invariants _ _ Hsame).
  - apply (reachable_one_live_pair setHSL). apply run_changes_reachable.
  - apply (reachable_in_sync setHSL). apply run_changes_reachable.
Qed.

End PageExtras.

(** ** The further statements at the worked scenario *)

Lemma scenario_world_reachable : reachable hsl_to_rgb scenario_world.
Proof.
  exact (reachable_change hsl_to_rgb (ChangeSteps 100) _
           (reachable_rotate hsl_to_rgb true _ (reachable_initial hsl_to_rgb))).
Qed.

(** The scenario state is one of a rotating page. *)
Lemma scenario_world_rotating :
  rotate (butterflySettings scenario_world) = true.
Proof.
  unfold scenario_world. rewrite onChange_rotate. reflexivity.
Qed.

Lemma display_in_sync_with_settings_witness :
  reachable hsl_to_rgb scenario_world /\
  in_sync hsl_to_rgb scenario_world.
Proof.
  split; [exact scenario_world_reachable |].
  exact (proj1 (display_in_sync_with_settings hsl_to_rgb scenario_world
                  scenario_world_reachable)).
Defined.

Lemma attached_never_disposed_witness :
  reachable hsl_to_rgb scenario_world /\
  NoDup (disposed (events scenario_world)) /\
  (forall k, geometry_of scenario_world k ∉ disposed (events scenario_world)).
Proof.
  split; [exact scenario_world_reachable |].
  destruct (attached_never_disposed hsl_to_rgb scenario_world
              scenario_world_reachable) as (Hnd & _ & Hk & _).
  split; [exact Hnd | exact Hk].
Defined.

Lemma history_released_before_replaced_witness :
  reachable hsl_to_rgb scenario_world /\
  released_before_replaced (geometry_of (initial_world hsl_to_rgb)) []
    (events scenario_world).
Proof.
  split; [exact scenario_world_reachable |].
  exact (proj1 (history_released_before_replaced hsl_to_rgb scenario_world
                  scenario_world_reachable)).
Defined.

Lemma colour_change_keeps_positions_witness :
  reachable hsl_to_rgb scenario_world /\
  let w' := (onChange hsl_to_rgb (ChangeHue (1 / 2)%R) scenario_world).2 in
  getAttribute w' (geometry_of w' WingLeft) "position"
    = getAttribute scenario_world (geometry_of scenario_world WingLeft) "position".
Proof.
  split; [exact scenario_world_reachable |].
  exact (proj1 (colour_change_keeps_positions hsl_to_rgb scenario_world
                  (1 / 2)%R WingLeft scenario_world_reachable)).
Defined.

Lemma vertices_in_bounding_box_witness :
  (Z.of_nat 2 < 4)%Z /\
  exists x y z : R,
    triple_at (pointsLeft (sample hsl_to_rgb 4 scenario_hsl)) 2 = Some (x, y, z) /\
    (Rabs x <= exp 1 + 3)%R /\ (Rabs y <= exp 1 + 3)%R /\ (Rabs z <= 1 / 2)%R.
Proof.
  split; [reflexivity |].
  destruct (vertices_in_bounding_box hsl_to_rgb 4 scenario_hsl 2 eq_refl)
    as (x & y & z & HL & _ & Hx & _ & Hy & Hz).
  exists x, y, z. repeat split; assumption.
Defined.

Lemma hue_is_raw_hue_modulo_turns_witness :
  (0 <= 85 / 100 - 3 / 10 * 1 + 1)%R /\ (0 <= hue (85 / 100)%R 1%R)%R.
Proof.
  assert (Hd : (0 <= 85 / 100 - 3 / 10 * 1 + 1)%R) by lra.
  split; [exact Hd |].
  destruct (hue_is_raw_hue_modulo_turns (85 / 100)%R 1%R) as (_ & _ & Hpos & _).
  exact (Hpos Hd).
Defined.

Lemma first_colour_is_black_witness :
  (forall h s : R,
     hsl_to_rgb h s 0 = {| color_r := 0%R; color_g := 0%R; color_b := 0%R |}) /\
  (0 < 4)%Z /\
  triple_at (colors (sample hsl_to_rgb 4 scenario_hsl)) 0
    = Some (0%R, 0%R, 0%R).
Proof.
  split; [exact hsl_to_rgb_black |]. split; [reflexivity |].
  exact (proj1 (first_colour_is_black hsl_to_rgb 4 scenario_hsl
                  (initial_world hsl_to_rgb) hsl_to_rgb_black eq_refl)).
Defined.
